(** * Repository scoring pipeline: bus factor, URL resolver, net score, orchestrator

    A shallow embedding of [src/unnamed/part_000] (the bus-factor script) and
    [src/src/github-wrapper.ts] (the metrics orchestrator), with the
    properties of the natural-language specification stated and proved
    over it.

    Conventions of the embedding.
    - A JavaScript number that is a count (contributions, running sums, the
      bus factor) is an unbounded natural number, which is what binary64
      holds below [2^53]; a number that results from a division or a
      product is a [number]: a rational that binary64 holds, the exact
      result rounded to nearest with ties to even, or one of the three
      IEEE specials.  Signed zeros are not modelled.
    - A JavaScript string is a [string] (a sequence of 8-bit characters).
    - [await]ed calls run one after the other, so an [async] function is a
      state-passing computation that either returns or throws.  The one
      call that is not awaited, [fs.writeFile] with a callback, leaves a
      request with the thread pool, which takes effect later.
    - The modules that the orchestrator imports and that are not among the
      sources are the fields of a class, [Imports]; the theorems hold for
      every instance. *)

From Stdlib Require Import ZArith NArith QArith Qround Qpower Lqa Lia Ascii.
From Stdlib Require Import Sorting.Sorted Sorting.Permutation.
From stdpp Require Import base list sorting strings pretty gmap.

Local Open Scope stdpp_scope.

(* ===================================================================== *)
(** ** Rounding to binary64 *)
(* ===================================================================== *)

Module Binary64.
Local Open Scope Q_scope.

Definition pow2 (z : Z) : Q := 2 ^ z.

(** The exponent of the binade of a positive [x]: the [e] with
    [2^e <= x < 2^(e+1)]. *)
Definition ilog2 (x : Q) : Z :=
  let c := (Z.log2 (Qnum x) - Z.log2 (Zpos (Qden x)))%Z in
  if Qle_bool (pow2 c) x then c else (c - 1)%Z.

(** The integer nearest to [m], the even one of the two when [m] is
    halfway. *)
Definition roundNE (m : Q) : Z :=
  let f := Qfloor m in
  match Qcompare (m - inject_Z f) (1 # 2) with
  | Lt => f
  | Gt => (f + 1)%Z
  | Eq => if Z.even f then f else (f + 1)%Z
  end.

Definition emin : Z := (-1022)%Z.

(** The distance of the binary64 numbers around a positive [x]: 53 bits
    of precision, subnormal below [2^emin]. *)
Definition ulp (x : Q) : Q := pow2 (Z.max (ilog2 x) emin - 52).

Definition round64pos (x : Q) : Q := inject_Z (roundNE (x / ulp x)) * ulp x.

(** Rounding to nearest, ties to even, with an unbounded exponent
    above. *)
Definition round64 (x : Q) : Q :=
  match Qcompare x 0 with
  | Eq => 0
  | Gt => round64pos x
  | Lt => - round64pos (- x)
  end.

End Binary64.

(* ===================================================================== *)
(** ** JavaScript numbers produced by division *)
(* ===================================================================== *)

Module JsNumber.
Import Binary64.

Inductive number : Type :=
| Fin (q : Q)
| NaN
| PosInf
| NegInf.

Definition ofN (n : N) : number := Fin (inject_Z (Z.of_N n)).

(** The number that an arithmetic operation delivers when its exact
    result is [q]: [q] rounded to binary64, an infinity when the rounded
    value is beyond the largest binary64 number. *)
Definition fin64 (q : Q) : number :=
  let r := round64 q in
  if Qle_bool (pow2 1024) r then PosInf
  else if Qle_bool r (- pow2 1024) then NegInf
  else Fin r.

(** [x / y].  A zero divisor gives [NaN] for [0 / 0] and an infinity
    otherwise; nothing is raised. *)
Definition jsdiv (x y : number) : number :=
  match x, y with
  | NaN, _ | _, NaN => NaN
  | Fin a, Fin b =>
      if Qeq_bool b 0
      then (if Qeq_bool a 0 then NaN
            else if Qle_bool 0 a then PosInf else NegInf)
      else fin64 (a / b)
  | Fin _, (PosInf | NegInf) => Fin 0
  | PosInf, Fin b => if Qle_bool 0 b then PosInf else NegInf
  | NegInf, Fin b => if Qle_bool 0 b then NegInf else PosInf
  | (PosInf | NegInf), (PosInf | NegInf) => NaN
  end.

(** [x * y]. *)
Definition jsmul (x y : number) : number :=
  match x, y with
  | NaN, _ | _, NaN => NaN
  | Fin a, Fin b => fin64 (a * b)
  | Fin a, PosInf | PosInf, Fin a =>
      if Qeq_bool a 0 then NaN else if Qle_bool 0 a then PosInf else NegInf
  | Fin a, NegInf | NegInf, Fin a =>
      if Qeq_bool a 0 then NaN else if Qle_bool 0 a then NegInf else PosInf
  | PosInf, PosInf | NegInf, NegInf => PosInf
  | PosInf, NegInf | NegInf, PosInf => NegInf
  end.

(** [x <= y]; every comparison with [NaN] is false. *)
Definition jsle (x y : number) : bool :=
  match x, y with
  | NaN, _ | _, NaN => false
  | NegInf, _ => true
  | _, PosInf => true
  | Fin a, Fin b => Qle_bool a b
  | Fin _, NegInf => false
  | PosInf, (Fin _ | NegInf) => false
  end.

(** [x >= y]. *)
Definition jsge (x y : number) : bool := jsle y x.

End JsNumber.

(* ===================================================================== *)
(** ** Bus factor ([src/unnamed/part_000], lines 40-57) *)
(* ===================================================================== *)

Module BusFactor.
Import JsNumber.

(** One element of the contributors payload. *)
Record Contributor : Type := mkContributor {
  login : string;
  contributions : N
}.

(** [(a, b) => b.contributions - a.contributions] *)
Definition compareFn (a b : Contributor) : Z :=
  (Z.of_N (contributions b) - Z.of_N (contributions a))%Z.

(** [Array.prototype.sort] is a stable sort: [a] is placed before [b]
    when the comparator is negative, and elements that compare equal keep
    their order.  A stable sort has one result only, computed here by
    insertion. *)
Fixpoint insertStable (x : Contributor) (l : list Contributor)
    : list Contributor :=
  match l with
  | [] => [x]
  | y :: l' =>
      if (compareFn x y <=? 0)%Z then x :: y :: l'
      else y :: insertStable x l'
  end.

Fixpoint sort (l : list Contributor) : list Contributor :=
  match l with
  | [] => []
  | x :: l' => insertStable x (sort l')
  end.

(** [contributors.reduce((acc, contributor) => acc + contributor.contributions, 0)] *)
Definition totalCommitsOf (contributors : list Contributor) : N :=
  fold_left (fun acc contributor => (acc + contributions contributor)%N)
            contributors 0%N.

(** [(commitSum / totalCommits) * 100] *)
Definition contributionPercentage (commitSum totalCommits : N) : number :=
  jsmul (jsdiv (ofN commitSum) (ofN totalCommits)) (Fin 100).

(** The [for ... of] loop with its [break], from the state
    [(commitSum, busFactor)]. *)
Fixpoint forOf (threshold : number) (totalCommits : N)
    (sortedContributors : list Contributor)
    (commitSum : N) (busFactor : nat) : nat :=
  match sortedContributors with
  | [] => busFactor
  | contributor :: rest =>
      let commitSum := (commitSum + contributions contributor)%N in
      let busFactor := busFactor + 1 in
      if jsge (contributionPercentage commitSum totalCommits) threshold
      then busFactor
      else forOf threshold totalCommits rest commitSum busFactor
  end.

(** [calculateBusFactor(contributors, threshold)].  [sort] works in place
    and [sortedContributors] is the caller's array itself, so the function
    yields the returned count together with the content the caller's
    array has afterwards. *)
Definition calculateBusFactor (contributors : list Contributor)
    (threshold : number) : nat * list Contributor :=
  let totalCommits := totalCommitsOf contributors in
  let sortedContributors := sort contributors in
  (forOf threshold totalCommits sortedContributors 0%N 0, sortedContributors).

(** The default value of the parameter [threshold]. *)
Definition defaultThreshold : number := Fin 50.

(** *** Vocabulary of the specification *)

(** Descending order of contribution count. *)
Definition desc (a b : Contributor) : Prop :=
  (contributions b <= contributions a)%N.

(** The sum of the contribution counts of the first [k] elements. *)
Definition topSum (ranked : list Contributor) (k : nat) : N :=
  totalCommitsOf (take k ranked).

(** The cumulative share [sum / total] reaches or exceeds [threshold]
    percent, in exact arithmetic. *)
Definition reaches (threshold : number) (total sum : N) : Prop :=
  match threshold with
  | Fin q => (q * inject_Z (Z.of_N total) <= 100 * inject_Z (Z.of_N sum))%Q
  | NegInf => True
  | NaN | PosInf => False
  end.

(** [k] is the number of top contributors, in any ranking of
    [contributors] that is descending by contribution count, whose
    cumulative share first reaches or exceeds [threshold]. *)
Definition isBusFactor (contributors : list Contributor)
    (threshold : number) (k : nat) : Prop :=
  forall ranked,
    Permutation ranked contributors -> StronglySorted desc ranked ->
    1 <= k <= length ranked
    /\ reaches threshold (totalCommitsOf contributors) (topSum ranked k)
    /\ forall j, 1 <= j < k ->
         ~ reaches threshold (totalCommitsOf contributors) (topSum ranked j).

(** The same test on the exact share scaled by [slack]: with a [slack]
    above 1 a share may fall that much short of the threshold, with a
    [slack] below 1 it has to exceed it by that much. *)
Definition reachesWithin (slack : Q) (threshold : number) (total sum : N)
    : Prop :=
  match threshold with
  | Fin q =>
      (q * inject_Z (Z.of_N total) <= 100 * inject_Z (Z.of_N sum) * slack)%Q
  | NegInf => True
  | NaN | PosInf => False
  end.

(** The relative distance, [2^-51], within which the percentage that the
    loop computes, a quotient and a product that are each rounded to
    binary64, lies of the exact percentage. *)
Definition tolerance : Q := Binary64.pow2 (-51).

(** [k] is the number of top contributors whose cumulative share first
    reaches [threshold], up to the relative distance [eps]: the share of
    the top [k] reaches the threshold or falls short of it by a factor of
    at most [1 + eps], and no shorter prefix exceeds the threshold by a
    factor of [1 - eps].  Which of the two a share within that distance
    of the threshold does is left open. *)
Definition isBusFactorWithin (eps : Q) (contributors : list Contributor)
    (threshold : number) (k : nat) : Prop :=
  forall ranked,
    Permutation ranked contributors -> StronglySorted desc ranked ->
    1 <= k <= length ranked
    /\ reachesWithin (1 + eps) threshold
         (totalCommitsOf contributors) (topSum ranked k)
    /\ forall j, 1 <= j < k ->
         ~ reachesWithin (1 - eps) threshold
             (totalCommitsOf contributors) (topSum ranked j).

(** The counts that binary64 holds exactly are those below [2^53]. *)
Definition exactCounts (total : N) : Prop := (total < 2 ^ 53)%N.

(** The value of [contributionPercentage] when the total is positive and
    neither operation overflows: the quotient rounded, times 100,
    rounded. *)
Definition percentage64 (total sum : N) : Q :=
  Binary64.round64
    (Binary64.round64 (inject_Z (Z.of_N sum) / inject_Z (Z.of_N total))
     * 100).

(** The test of the loop on the running sum [sum]. *)
Definition hit (threshold : number) (total sum : N) : bool :=
  jsge (contributionPercentage sum total) threshold.

End BusFactor.

(* ===================================================================== *)
(** ** Repository resolver ([parseGithubUrl], both source files) *)
(* ===================================================================== *)

Module Resolver.

(** The regular expressions of the program are sequences of two kinds of
    term: a literal character, and a capturing group [([^c]+)] (one or
    more characters other than [c], greedy). *)
Inductive term : Type :=
| Lit (c : ascii)
| CaptureNotPlus (c : ascii).

Definition regex : Type := list term.

(** The greedy [+] of a group [([^c]+)] by backtracking: the group takes
    one character and then tries to take more before it hands the rest of
    the input to the continuation [k] of the pattern. *)
Fixpoint greedyPlus (k : string -> option (list string)) (c : ascii)
    (s : string) : option (string * list string) :=
  match s with
  | "" => None
  | String x s' =>
      if Ascii.eqb x c then None
      else match greedyPlus k c s' with
           | Some (cap, caps) => Some (String x cap, caps)
           | None =>
               match k s' with
               | Some caps => Some (String x "", caps)
               | None => None
               end
           end
  end.

(** Match pattern [p] at the start of [s]; the result lists the text of
    the capture groups, in order. *)
Fixpoint matchHere (p : regex) (s : string) : option (list string) :=
  match p with
  | [] => Some []
  | Lit c :: p' =>
      match s with
      | String x s' => if Ascii.eqb x c then matchHere p' s' else None
      | "" => None
      end
  | CaptureNotPlus c :: p' =>
      match greedyPlus (matchHere p') c s with
      | Some (cap, caps) => Some (cap :: caps)
      | None => None
      end
  end.

(** [s.match(p)] for a pattern without flags: the match at the leftmost
    position where there is one, or [null].  Of the resulting array only
    the capture groups ([match[1]], [match[2]], ...) are kept; the
    program does not read [match[0]]. *)
Fixpoint jsMatch (p : regex) (s : string) : option (list string) :=
  match matchHere p s with
  | Some caps => Some caps
  | None =>
      match s with
      | "" => None
      | String _ s' => jsMatch p s'
      end
  end.

Fixpoint literal (s : string) : regex :=
  match s with
  | "" => []
  | String c s' => Lit c :: literal s'
  end.

(** [/https:\/\/github\.com\/([^/]+)\/([^/]+)/] *)
Definition githubPattern : regex :=
  literal "https://github.com/"
    ++ [CaptureNotPlus "/"%char; Lit "/"%char; CaptureNotPlus "/"%char].

(** A string is truthy unless it is empty. *)
Definition truthy (s : string) : bool :=
  match s with "" => false | _ => true end.

Record RepoInfo : Type := mkRepoInfo { owner : string; repo : string }.

(** [parseGithubUrl(url)]; [None] is [null]. *)
Definition parseGithubUrl (url : string) : option RepoInfo :=
  match jsMatch githubPattern url with
  | Some [m1; m2] =>
      if truthy m1 && truthy m2
      then Some {| owner := m1; repo := m2 |}
      else None
  | _ => None
  end.

(** The characters of [s] all differ from ['/']. *)
Fixpoint noSlash (s : string) : bool :=
  match s with
  | "" => true
  | String x s' => negb (Ascii.eqb x "/"%char) && noSlash s'
  end.

(** The exact shape [https://github.com/{owner}/{repo}]. *)
Definition githubUrl (o r : string) : string :=
  "https://github.com/" +:+ o +:+ "/" +:+ r.

(** *** Vocabulary of the specification *)

(** The longest prefix of [s] without the character [c], and what
    follows it. *)
Fixpoint run (c : ascii) (s : string) : string :=
  match s with
  | "" => ""
  | String x s' => if Ascii.eqb x c then "" else String x (run c s')
  end.

Fixpoint rest (c : ascii) (s : string) : string :=
  match s with
  | "" => ""
  | String x s' => if Ascii.eqb x c then s else rest c s'
  end.

(** [s] contains the shape [https://github.com/{owner}/{repo}], with
    [owner] and [repo] not empty and without ['/']. *)
Definition occursIn (s : string) : Prop :=
  exists pre o r post,
    s = pre +:+ githubUrl o r +:+ post
    /\ o <> "" /\ r <> "" /\ noSlash o = true /\ noSlash r = true.

(** The shape of C3: the whole string is [https://github.com/{owner}/{repo}]
    with no ['/'] in [owner] and [repo]. *)
Definition exactShape (s : string) : Prop :=
  exists o r, noSlash o = true /\ noSlash r = true /\ s = githubUrl o r.

End Resolver.

(* ===================================================================== *)
(** ** Net score ([./netscore]) *)
(* ===================================================================== *)

Module NetScore.

(** The policy constants of the weighting. *)
Record Weights : Type := mkWeights {
  wBusFactor : Q;
  wRampUp : Q;
  wCorrectness : Q;
  wResponsiveness : Q
}.

(** "weights sum to 1", with no weight negative. *)
Definition isPolicy (w : Weights) : Prop :=
  (0 <= wBusFactor w /\ 0 <= wRampUp w /\ 0 <= wCorrectness w
   /\ 0 <= wResponsiveness w
   /\ wBusFactor w + wRampUp w + wCorrectness w + wResponsiveness w == 1)%Q.

(** Modelled from the spec: the module [./netscore], which defines
    [calculateNetScore], is not among the sources.  The specification
    describes it as "one composite score via a fixed linear weighting
    (weights sum to 1; exact weights are a policy constant)" of the four
    component scores, a pure function. *)
Definition calculateNetScore (w : Weights)
    (busFactor rampUp correctness responsiveness : Q) : Q :=
  (wBusFactor w * busFactor + wRampUp w * rampUp
   + wCorrectness w * correctness + wResponsiveness w * responsiveness)%Q.

Definition inUnit (x : Q) : Prop := (0 <= x /\ x <= 1)%Q.

End NetScore.

(* ===================================================================== *)
(** ** Effects: exceptions, the outside world, files and the console *)
(* ===================================================================== *)

Module Runtime.

(** A thrown value, as the text a template literal renders it with. *)
Definition Error : Type := string.

Inductive Outcome (A : Type) : Type :=
| Returned (a : A)
| Thrown (e : Error).
Arguments Returned {A} a.
Arguments Thrown {A} e.

(** A call into an imported module acts on the state [Ext] of the outside
    world (the network, the clock) and on nothing else: it returns or
    throws, and leaves the files and the console of this process alone. *)
Definition Remote (Ext A : Type) : Type := Ext -> Outcome A * Ext.

(** A request handed to the thread pool by the callback variant of a
    file operation: the number of synchronous file operations of the main
    thread that still overtake it, the path and the data. *)
Definition PoolRequest : Type := (nat * (string * string))%type.

Record World (Ext : Type) : Type := mkWorld {
  ext : Ext;
  files : gmap string string;
  pool : list PoolRequest;
  stdout : list string;
  stderr : list string
}.
Arguments mkWorld {Ext}.
Arguments ext {Ext}.
Arguments files {Ext}.
Arguments pool {Ext}.
Arguments stdout {Ext}.
Arguments stderr {Ext}.

(** An [async] function whose calls are all [await]ed. *)
Definition Async (Ext A : Type) : Type := World Ext -> Outcome A * World Ext.

Section Ops.
Context {Ext : Type}.

Definition ret {A} (a : A) : Async Ext A := fun w => (Returned a, w).

Definition throw {A} (e : Error) : Async Ext A := fun w => (Thrown e, w).

Definition bind {A B} (m : Async Ext A) (k : A -> Async Ext B)
    : Async Ext B :=
  fun w =>
    match m w with
    | (Returned a, w') => k a w'
    | (Thrown e, w') => (Thrown e, w')
    end.

(** [try { m } catch (error) { handler error }] *)
Definition tryCatch {A} (m : Async Ext A) (handler : Error -> Async Ext A)
    : Async Ext A :=
  fun w =>
    match m w with
    | (Returned a, w') => (Returned a, w')
    | (Thrown e, w') => handler e w'
    end.

(** [await] of a call into an imported module. *)
Definition await {A} (c : Remote Ext A) : Async Ext A :=
  fun w =>
    let '(o, x) := c (ext w) in
    (o, mkWorld x (files w) (pool w) (stdout w) (stderr w)).

Definition consoleLog (line : string) : Async Ext unit :=
  fun w =>
    (Returned tt,
     mkWorld (ext w) (files w) (pool w) (stdout w ++ [line]) (stderr w)).

Definition consoleError (line : string) : Async Ext unit :=
  fun w =>
    (Returned tt,
     mkWorld (ext w) (files w) (pool w) (stdout w) (stderr w ++ [line])).

(** One synchronous file operation goes by: the requests that nothing
    overtakes any more take effect, in the order of the queue. *)
Fixpoint poolStep (reqs : list PoolRequest) (fs : gmap string string)
    : list PoolRequest * gmap string string :=
  match reqs with
  | [] => ([], fs)
  | (0, (path, data)) :: reqs' => poolStep reqs' (<[path := data]> fs)
  | (S k, (path, data)) :: reqs' =>
      let '(reqs'', fs') := poolStep reqs' fs in
      ((k, (path, data)) :: reqs'', fs')
  end.

(** The file system once the thread pool has no request left. *)
Definition drained (w : World Ext) : gmap string string :=
  fold_left (fun fs '(_, (path, data)) => <[path := data]> fs)
            (pool w) (files w).

(** [fs.readFileSync(path, 'utf-8')] *)
Definition readFileSync (path : string) : Async Ext string :=
  fun w =>
    let '(reqs, fs) := poolStep (pool w) (files w) in
    let w' := mkWorld (ext w) fs reqs (stdout w) (stderr w) in
    match fs !! path with
    | Some text => (Returned text, w')
    | None =>
        (Thrown ("Error: ENOENT: no such file or directory, open '"
                   +:+ path +:+ "'"), w')
    end.

(** [fs.appendFileSync(path, data)]: the file is created when it does
    not exist. *)
Definition appendFileSync (path data : string) : Async Ext unit :=
  fun w =>
    let '(reqs, fs) := poolStep (pool w) (files w) in
    (Returned tt,
     mkWorld (ext w)
             (<[path := default "" (fs !! path) +:+ data]> fs)
             reqs (stdout w) (stderr w)).

(** [fs.writeFile(path, data, callback)]: the request goes to the thread
    pool and the call returns at once; [delay] tells how many
    synchronous file operations overtake the request. *)
Definition writeFile (delay : Ext -> nat) (path data : string)
    : Async Ext unit :=
  fun w =>
    (Returned tt,
     mkWorld (ext w) (files w)
             (pool w ++ [(delay (ext w), (path, data))])
             (stdout w) (stderr w)).

End Ops.

Notation "x <- m ;; k" := (bind m (fun x => k))
  (at level 100, m at next level, right associativity).

End Runtime.

(* ===================================================================== *)
(** ** Orchestrator ([src/src/github-wrapper.ts]) *)
(* ===================================================================== *)

(** The functions of the file are modelled.  The check of [GITHUB_TOKEN]
    that runs when the module is loaded ends the process before any of
    them is called; a token is present here.  Of the imported modules,
    [./bus-factor] is taken to be the [calculateBusFactor] of
    [src/unnamed/part_000], [./netscore] and [./function-timer] are
    modelled from the specification, and the others are the fields of the
    class [Imports]. *)

Module Orchestrator.
Import JsNumber BusFactor Resolver NetScore Runtime.

(** What [functionTimer] resolves to. *)
Record TimedResult (A : Type) : Type := mkTimed { output : A; time : Q }.
Arguments mkTimed {A}.
Arguments output {A}.
Arguments time {A}.

(** What [axios.get] resolves to; of the response the program reads
    [response.data.license] only, kept as the text a template literal
    renders it with. *)
Record Response : Type := mkResponse { data_license : string }.

(** The imported modules whose code is not among the sources, the
    constants of [./Util], and the platform. *)
Class Imports (Ext : Type) : Type := {
  (** [./Util/npmUtil] *)
  getGithubLink : string -> string;
  (** [./api-calls/github-adapter] *)
  fetchContributors : string -> string -> Remote Ext (list Contributor);
  (** [./ramp-up], [./find-correctness], [./find-responsive-maintainer] *)
  calculateRampUp : string -> string -> Remote Ext Q;
  calculateCorrectness : string -> string -> Remote Ext Q;
  calculateResponsiveMaintener : string -> string -> Remote Ext Q;
  (** the policy constants of [./netscore] *)
  weights : Weights;
  (** [axios.get(url, { headers: { Authorization } })] *)
  axiosGet : string -> string -> Remote Ext Response;
  (** [Util.Constants] *)
  GITHUB_API_BASE_URL : string;
  GITHUB_TOKEN : string;
  (** a reading of the clock, in seconds *)
  now : Ext -> Q * Ext;
  (** how many synchronous file operations overtake a request handed to
      the thread pool *)
  threadPoolDelay : Ext -> nat;
  (** the text of [${Number(x.toPrecision(5))}] *)
  precision5 : Q -> string
}.

Definition LF : ascii := "010"%char.
Definition nl : string := String LF "".
Definition dq : string := String "034"%char "".

(** [s.split(sep)] for a separator of one character. *)
Fixpoint split (sep : ascii) (s : string) : list string :=
  match s with
  | "" => [""]
  | String x s' =>
      if Ascii.eqb x sep then "" :: split sep s'
      else match split sep s' with
           | piece :: pieces => String x piece :: pieces
           | [] => [String x ""]
           end
  end.

(** The text of the file [path], empty when there is no such file. *)
Definition contentOf (fs : gmap string string) (path : string) : string :=
  default "" (fs !! path).

(** The records [rs], each followed by a newline. *)
Fixpoint lines (rs : list string) : string :=
  match rs with
  | [] => ""
  | r :: rs' => r +:+ nl +:+ lines rs'
  end.

Section Pipeline.
Context {Ext : Type} `{!Imports Ext}.

(** Modelled from the spec: the module [./function-timer] is not among
    the sources.  The specification has the timer "execute it to
    completion, capture start and end timestamps from a monotonic clock,
    and return a TimedResult pairing the computation's result with
    elapsed time in seconds", and propagate what the computation throws
    unchanged. *)
Definition functionTimer {A} (work : Async Ext A)
    : Async Ext (TimedResult A) :=
  start <- await (fun x => let '(t, x') := now x in (Returned t, x')) ;;
  out <- work ;;
  stop <- await (fun x => let '(t, x') := now x in (Returned t, x')) ;;
  ret (mkTimed out (stop - start)%Q).

(** [fetchRepoLicense(owner, repo)] *)
Definition fetchRepoLicense (owner repo : string) : Async Ext string :=
  tryCatch
    (response <- await (axiosGet
                  (GITHUB_API_BASE_URL +:+ "/repos/" +:+ owner +:+ "/"
                     +:+ repo +:+ "/license")
                  ("token " +:+ GITHUB_TOKEN)) ;;
     ret (data_license response))
    (fun error =>
       _ <- consoleError
              ("ERROR! Failed to retrieve license information for "
                 +:+ owner +:+ "/" +:+ repo +:+ ": " +:+ error) ;;
       throw error).

Definition key (name : string) : string :=
  "    " +:+ dq +:+ name +:+ dq +:+ ": ".

(** The template literal of lines 72-86. *)
Definition report (url : string)
    (netScore rampUpScore correctness busFactor maintainResponsiveness
       : TimedResult Q)
    (retrievedLicense : TimedResult string) : string :=
  "{" +:+ nl
  +:+ key "URL" +:+ dq +:+ url +:+ dq +:+ ", " +:+ nl
  +:+ key "NetScore" +:+ dq +:+ precision5 (output netScore) +:+ dq
      +:+ ", " +:+ nl
  +:+ key "NetScore_Latency" +:+ precision5 (time netScore)
      +:+ ", " +:+ nl
  +:+ key "RampUp" +:+ precision5 (output rampUpScore) +:+ ", " +:+ nl
  +:+ key "RampUp_Latency" +:+ precision5 (time rampUpScore)
      +:+ ", " +:+ nl
  +:+ key "Correctness" +:+ precision5 (output correctness)
      +:+ ", " +:+ nl
  +:+ key "Correctness_Latency" +:+ precision5 (time correctness)
      +:+ ", " +:+ nl
  +:+ key "BusFactor" +:+ precision5 (output busFactor) +:+ ", " +:+ nl
  +:+ key "BusFactor_Latency" +:+ precision5 (time busFactor)
      +:+ ", " +:+ nl
  +:+ key "ResponsiveMaintainer"
      +:+ precision5 (output maintainResponsiveness) +:+ ", " +:+ nl
  +:+ key "ResponsiveMaintainer_Latency"
      +:+ precision5 (time maintainResponsiveness) +:+ ", " +:+ nl
  +:+ key "License" +:+ dq +:+ output retrievedLicense +:+ dq
      +:+ ", " +:+ nl
  +:+ key "License_Latency" +:+ precision5 (time retrievedLicense) +:+ nl
  +:+ "}".

(** The body of the [try] block of [calculateMetricsForRepo]. *)
Definition tryBlock (url owner repo : string) : Async Ext string :=
  contributors <- await (fetchContributors owner repo) ;;
  busFactor <- functionTimer
    (ret (inject_Z (Z.of_nat
           (fst (calculateBusFactor contributors (Fin 50)))))) ;;
  rampUpScore <- functionTimer (await (calculateRampUp owner repo)) ;;
  retrievedLicense <- functionTimer (fetchRepoLicense owner repo) ;;
  correctness <- functionTimer (await (calculateCorrectness owner repo)) ;;
  maintainResponsiveness <- functionTimer
    (await (calculateResponsiveMaintener owner repo)) ;;
  netScore <- functionTimer
    (ret (calculateNetScore weights
            (output busFactor) (output rampUpScore)
            (output correctness) (output maintainResponsiveness))) ;;
  ret (report url netScore rampUpScore correctness busFactor
         maintainResponsiveness retrievedLicense).

(** *** Vocabulary of the specification: the calls of a pipeline *)

(** A reading of the clock, which a timer takes before and after the
    computation it times. *)
Definition tick : Remote Ext unit := fun x => (Returned tt, snd (now x)).

(** A call of which only the success or the failure is kept. *)
Definition forget {A} (call : Remote Ext A) : Remote Ext unit :=
  fun x =>
    match call x with
    | (Returned _, x') => (Returned tt, x')
    | (Thrown e, x') => (Thrown e, x')
    end.

(** The fetches and the calculators of the pipeline of a repository: the
    contributors request, the ramp-up calculator, the license request,
    the correctness calculator and the responsiveness calculator, in the
    order of the pipeline, each but the first between the two readings
    of the clock of its timer.  The bus factor and the net score are
    computed between two readings of the clock without any call. *)
Definition remoteCalls (owner repo : string) : list (Remote Ext unit) :=
  [ forget (fetchContributors owner repo);
    tick; tick;
    tick; forget (calculateRampUp owner repo); tick;
    tick;
    forget (axiosGet
              (GITHUB_API_BASE_URL +:+ "/repos/" +:+ owner +:+ "/"
                 +:+ repo +:+ "/license")
              ("token " +:+ GITHUB_TOKEN));
    tick;
    tick; forget (calculateCorrectness owner repo); tick;
    tick; forget (calculateResponsiveMaintener owner repo); tick;
    tick; tick ].

(** The [calls] made one after the other from the state [x] of the
    outside world, up to the first that throws: what that one throws, or
    that all have returned, and the state in which the outside world is
    left. *)
Fixpoint callsInTurn (calls : list (Remote Ext unit)) (x : Ext)
    : Outcome unit * Ext :=
  match calls with
  | [] => (Returned tt, x)
  | call :: rest =>
      match call x with
      | (Returned _, x') => callsInTurn rest x'
      | (Thrown e, x') => (Thrown e, x')
      end
  end.

(** The computation [m] makes the [calls] in turn: it throws what the
    first call that throws has thrown, without making the calls after
    it, and it returns when every call returns. *)
Definition makes {A} (m : Async Ext A) (calls : list (Remote Ext unit))
    : Prop :=
  forall w,
    match callsInTurn calls (ext w) with
    | (Thrown e, x) => exists w1, m w = (Thrown e, w1) /\ ext w1 = x
    | (Returned _, x) => exists a w1, m w = (Returned a, w1) /\ ext w1 = x
    end.

(** [calculateMetricsForRepo(url)] *)
Definition calculateMetricsForRepo (url : string) : Async Ext string :=
  let githubUrl := getGithubLink url in
  match parseGithubUrl githubUrl with
  | None => ret ("Invalid URL: " +:+ githubUrl)
  | Some repoInfo =>
      tryCatch
        (tryBlock url (owner repoInfo) (repo repoInfo))
        (fun error =>
           ret ("Error calculating Metrics for " +:+ owner repoInfo
                  +:+ "/" +:+ repo repoInfo +:+ ": " +:+ error))
  end.

(** The loop [for (const githubUrl of urls)] of [parseUrlFile], writing
    to the file [out]. *)
Fixpoint forOfUrls (out : string) (urls : list string) : Async Ext unit :=
  match urls with
  | [] => ret tt
  | githubUrl :: rest =>
      result <- calculateMetricsForRepo githubUrl ;;
      _ <- consoleLog result ;;
      _ <- appendFileSync out (result +:+ nl) ;;
      forOfUrls out rest
  end.

(** [parseUrlFile(filepath)] *)
Definition parseUrlFile (filepath : string) : Async Ext unit :=
  text <- readFileSync filepath ;;
  let urls := List.filter truthy (split LF text) in
  _ <- writeFile threadPoolDelay (filepath +:+ ".NDJSON") "" ;;
  forOfUrls (filepath +:+ ".NDJSON") urls.

(** The world once [result] has been logged and appended to [out]:
    the last two statements of the body of the loop. *)
Definition written (out result : string) (w : World Ext) : World Ext :=
  snd (appendFileSync out (result +:+ nl) (snd (consoleLog result w))).

(** The results of the repositories of a batch, in the order in which
    the loop obtains them from the world [w]. *)
Fixpoint results (out : string) (urls : list string) (w : World Ext)
    : list string :=
  match urls with
  | [] => []
  | githubUrl :: rest =>
      match calculateMetricsForRepo githubUrl w with
      | (Returned result, w1) =>
          result :: results out rest (written out result w1)
      | (Thrown _, _) => []
      end
  end.

(** The world in which the loop of [parseUrlFile] starts: the input
    has been read and the request that empties the output file is with
    the thread pool. *)
Definition loopStart (filepath : string) (w : World Ext) : World Ext :=
  mkWorld (ext w) (files w)
          [(threadPoolDelay (ext w), (filepath +:+ ".NDJSON", ""))]
          (stdout w) (stderr w).

(** [m] writes to no file, hands nothing to the thread pool and prints
    nothing on the standard output. *)
Definition quiet {A} (m : Async Ext A) : Prop :=
  forall w,
    files (snd (m w)) = files w
    /\ pool (snd (m w)) = pool w
    /\ stdout (snd (m w)) = stdout w.

End Pipeline.

Arguments quiet Ext {A} m.
Arguments makes Ext {A} m calls.

End Orchestrator.

(* ===================================================================== *)
(** ** A test double for the imported modules *)
(* ===================================================================== *)

Module Scenario.
Import JsNumber BusFactor Resolver NetScore Runtime Orchestrator.

(** The outside world is a clock that every call advances. *)
Definition Clock : Type := nat.

Fixpoint stripZeros (reversed : string) : string :=
  match reversed with
  | String "0" s => stripZeros s
  | _ => reversed
  end.

Fixpoint zeros (n : nat) : string :=
  match n with
  | 0 => ""
  | S n' => String "0" (zeros n')
  end.

Definition pow10 (k : Z) : Q := (10 ^ k)%Q.

(** The decimal exponent of a positive [q], the [e] with
    [10^e <= q < 10^(e+1)], searched from [e]. *)
Fixpoint exponent10 (fuel : nat) (q : Q) (e : Z) : Z :=
  match fuel with
  | 0 => e
  | S fuel' =>
      if Qle_bool (pow10 (e + 1)) q then exponent10 fuel' q (e + 1)
      else if Qle_bool (pow10 e) q then e
      else exponent10 fuel' q (e - 1)
  end.

(** [`${Number(q.toPrecision(5))}`] for a positive [q]: [toPrecision]
    rounds to five significant digits, the larger of two that are
    equally near; [Number] reads them back, which drops the zeros at the
    end; the template literal writes the number in decimal notation, or
    with an exponent when it is below [1e-6] or not below [1e21]. *)
Definition positiveText (q : Q) : string :=
  let fuel := Z.to_nat (Z.log2 (Qnum q) + Z.log2 (Zpos (Qden q)) + 2) in
  let e0 := exponent10 fuel q 0 in
  let n0 := Qfloor (q / pow10 (e0 - 4) + (1 # 2)) in
  let '(n5, e) := if (n0 =? 100000)%Z then (10000, e0 + 1)%Z else (n0, e0) in
  let digits := String.rev (stripZeros (String.rev (pretty (Z.to_N n5)))) in
  let k := Z.of_nat (String.length digits) in
  let n := (e + 1)%Z in
  if ((k <=? n) && (n <=? 21))%Z
  then digits +:+ zeros (Z.to_nat (n - k))
  else if ((0 <? n) && (n <=? 21))%Z
  then String.substring 0 (Z.to_nat n) digits +:+ "."
         +:+ String.substring (Z.to_nat n) (Z.to_nat (k - n)) digits
  else if ((-6 <? n) && (n <=? 0))%Z
  then "0." +:+ zeros (Z.to_nat (- n)) +:+ digits
  else
    let mantissa :=
      if (k =? 1)%Z then digits
      else String.substring 0 1 digits +:+ "."
             +:+ String.substring 1 (Z.to_nat (k - 1)) digits in
    mantissa +:+ "e" +:+ (if (n - 1 <? 0)%Z then "-" else "+")
      +:+ pretty (Z.to_N (Z.abs (n - 1))).

(** The text of [${Number(x.toPrecision(5))}] for the binary64 number
    [x] nearest to [q]. *)
Definition decimalText (q : Q) : string :=
  let x := Binary64.round64 q in
  match Qcompare x 0 with
  | Eq => "0"
  | Gt => positiveText x
  | Lt => "-" +:+ positiveText (- x)
  end.

(** The contributors payload of the end-to-end scenario. *)
Definition helloWorldContributors : list Contributor :=
  [mkContributor "a" 90; mkContributor "b" 10].

Definition status500 : Error :=
  "AxiosError: Request failed with status code 500".

(** Every repository answers like [octocat/Hello-World], but for the
    repositories named [broken], whose contributors request fails. *)
#[export] Instance testDouble : Imports Clock := {|
  getGithubLink url := url;
  fetchContributors _ repo t :=
    if String.eqb repo "broken" then (Thrown status500, S t)
    else (Returned helloWorldContributors, S t);
  calculateRampUp _ _ t := (Returned (1#2), S t);
  calculateCorrectness _ _ t := (Returned (3#4), S t);
  calculateResponsiveMaintener _ _ t := (Returned (1#4), S t);
  weights := mkWeights (1#4) (1#4) (1#4) (1#4);
  axiosGet _ _ t := (Returned (mkResponse "[object Object]"), S t);
  GITHUB_API_BASE_URL := "https://api.github.com";
  GITHUB_TOKEN := "secret";
  now t := (inject_Z (Z.of_nat t), t);
  threadPoolDelay _ := 0;
  precision5 := decimalText
|}.

Definition timeout5000 : Error := "AxiosError: timeout of 5000ms exceeded".

(** As [testDouble], but the correctness calculator of every repository
    throws. *)
Definition correctnessDown : Imports Clock := {|
  getGithubLink url := url;
  fetchContributors _ _ t := (Returned helloWorldContributors, S t);
  calculateRampUp _ _ t := (Returned (1#2), S t);
  calculateCorrectness _ _ t := (Thrown timeout5000, S t);
  calculateResponsiveMaintener _ _ t := (Returned (1#4), S t);
  weights := mkWeights (1#4) (1#4) (1#4) (1#4);
  axiosGet _ _ t := (Returned (mkResponse "[object Object]"), S t);
  GITHUB_API_BASE_URL := "https://api.github.com";
  GITHUB_TOKEN := "secret";
  now t := (inject_Z (Z.of_nat t), t);
  threadPoolDelay _ := 0;
  precision5 := decimalText
|}.

(** As [testDouble], but the request that empties the output file takes
    effect only after two synchronous file operations. *)
Definition slowPool : Imports Clock := {|
  getGithubLink url := url;
  fetchContributors _ repo t :=
    if String.eqb repo "broken" then (Thrown status500, S t)
    else (Returned helloWorldContributors, S t);
  calculateRampUp _ _ t := (Returned (1#2), S t);
  calculateCorrectness _ _ t := (Returned (3#4), S t);
  calculateResponsiveMaintener _ _ t := (Returned (1#4), S t);
  weights := mkWeights (1#4) (1#4) (1#4) (1#4);
  axiosGet _ _ t := (Returned (mkResponse "[object Object]"), S t);
  GITHUB_API_BASE_URL := "https://api.github.com";
  GITHUB_TOKEN := "secret";
  now t := (inject_Z (Z.of_nat t), t);
  threadPoolDelay _ := 2;
  precision5 := decimalText
|}.

(** A world with one file. *)
Definition worldWith (path text : string) : World Clock :=
  mkWorld 0 {[ path := text ]} [] [] [].

(** The inputs of the examples. *)

Definition evenWeights : Weights := mkWeights (1#4) (1#4) (1#4) (1#4).

Definition soleMaintainer : list Contributor := [mkContributor "octocat" 5].

Definition idleContributors : list Contributor :=
  [mkContributor "a" 0; mkContributor "b" 0].

Definition twoContributors : list Contributor :=
  [mkContributor "b" 10; mkContributor "a" 90].

Definition closeCall : list Contributor :=
  [mkContributor "a" 57; mkContributor "b" 43].

Definition unrankedTeam : list Contributor :=
  [mkContributor "a" 20; mkContributor "d" 40; mkContributor "b" 10;
   mkContributor "c" 30].

Definition batchText : string :=
  "not-a-url" +:+ nl +:+ nl
  +:+ "https://github.com/octocat/broken" +:+ nl
  +:+ "https://github.com/octocat/Hello-World" +:+ nl.

Definition batchWorld : World Clock := worldWith "urls.txt" batchText.

Definition malformedText : string :=
  "not-a-url" +:+ nl +:+ "also-not-a-url" +:+ nl.

Definition malformedWorld : World Clock := worldWith "urls.txt" malformedText.

Definition helloWorldUrl : string := "https://github.com/octocat/Hello-World".

Definition helloWorldRun : Outcome string * World Clock :=
  tryBlock helloWorldUrl "octocat" "Hello-World" batchWorld.

Definition helloWorldText : string :=
  match fst helloWorldRun with
  | Returned text => text
  | Thrown e => e
  end.

Definition brokenUrl : string := "https://github.com/octocat/broken".

Definition brokenInfo : RepoInfo := {| owner := "octocat"; repo := "broken" |}.

(** The world in which the contributors request of [brokenUrl] has
    failed. *)
Definition brokenWorld : World Clock := mkWorld 1 (files batchWorld) [] [] [].

Definition helloWorldInfo : RepoInfo :=
  {| owner := "octocat"; repo := "Hello-World" |}.

End Scenario.

(* ===================================================================== *)
(** ** The bus-factor script ([src/unnamed/part_000]) *)
(* ===================================================================== *)

Module Script.
Import JsNumber BusFactor Resolver Runtime.

(** What the script takes from its environment: [axios.get] with the
    [Authorization] header, resolved and read at [response.data];
    [process.env.GITHUB_TOKEN], which may be undefined; and the value of
    [path.join(__dirname, 'url_file.txt')]. *)
Class Env (Ext : Type) : Type := {
  axiosGetData : string -> string -> Remote Ext (list Contributor);
  envToken : option string;
  urlFilePath : string
}.

(** [const GITHUB_API_BASE_URL = 'https://api.github.com'] *)
Definition GITHUB_API_BASE_URL : string := "https://api.github.com".

(** [!GITHUB_TOKEN]: the token is undefined or the empty string. *)
Definition tokenMissing (token : option string) : bool :=
  match token with
  | Some t => negb (truthy t)
  | None => true
  end.

(** [${GITHUB_TOKEN}] *)
Definition tokenText (token : option string) : string :=
  match token with
  | Some t => t
  | None => "undefined"
  end.

(** How the script ends: by [process.exit(code)]; with the promise of
    [main()] rejected, which no handler is attached to, so that the
    runtime (Node.js 15 and later) reports the error on the standard
    error and ends the process; or with that promise fulfilled. *)
Inductive Ending : Type :=
| Exited (code : nat)
| Uncaught (error : Error)
| Completed.

(** The exit code of the process. *)
Definition exitCode (ending : Ending) : nat :=
  match ending with
  | Exited code => code
  | Uncaught _ => 1
  | Completed => 0
  end.

Section Program.
Context {Ext : Type} `{!Env Ext}.

(** [fetchContributors(owner, repo)] *)
Definition fetchContributors (owner repo : string)
    : Async Ext (list Contributor) :=
  tryCatch
    (response <- await (axiosGetData
                  (GITHUB_API_BASE_URL +:+ "/repos/" +:+ owner +:+ "/"
                     +:+ repo +:+ "/contributors")
                  ("token " +:+ tokenText envToken)) ;;
     ret response)
    (fun error =>
       _ <- consoleError ("Error fetching contributors: " +:+ error) ;;
       throw error).

(** [calculateBusFactorForRepo(githubUrl)]; the count is rendered in
    decimal. *)
Definition calculateBusFactorForRepo (githubUrl : string)
    : Async Ext string :=
  match parseGithubUrl githubUrl with
  | None => ret ("Invalid GitHub URL: " +:+ githubUrl)
  | Some repoInfo =>
      tryCatch
        (contributors <- fetchContributors (owner repoInfo) (repo repoInfo) ;;
         let busFactor := fst (calculateBusFactor contributors (Fin 50)) in
         ret ("The Bus Factor for " +:+ owner repoInfo +:+ "/"
                +:+ repo repoInfo +:+ " is: " +:+ pretty busFactor))
        (fun error =>
           ret ("Error calculating Bus Factor for " +:+ owner repoInfo
                  +:+ "/" +:+ repo repoInfo +:+ ": " +:+ error))
  end.

(** The loop [for (const githubUrl of urls)] of [main]. *)
Fixpoint forOfUrls (urls : list string) : Async Ext unit :=
  match urls with
  | [] => ret tt
  | githubUrl :: rest =>
      result <- calculateBusFactorForRepo githubUrl ;;
      _ <- consoleLog result ;;
      forOfUrls rest
  end.

(** [main()] *)
Definition main : Async Ext unit :=
  text <- readFileSync urlFilePath ;;
  let urls := List.filter truthy (Orchestrator.split Orchestrator.LF text) in
  forOfUrls urls.

(** The statements of the module, in order: the check of the token, then
    [main()], a call with neither [await] nor [catch].  [trace] is what
    the runtime writes on the standard error for an error that nothing
    handles: its text and its stack. *)
Definition script (trace : Error -> list string) (w : World Ext)
    : Ending * World Ext :=
  if tokenMissing envToken
  then
    (Exited 1,
     snd (consoleError "Error: GITHUB_TOKEN is not set in the environment."
            w))
  else
    match main w with
    | (Returned _, w') => (Completed, w')
    | (Thrown error, w') =>
        (Uncaught error,
         mkWorld (ext w') (files w') (pool w') (stdout w')
                 (stderr w' ++ trace error))
    end.

(** The lines that the loop of [main] prints for [urls], from the world
    [w]. *)
Fixpoint printed (urls : list string) (w : World Ext) : list string :=
  match urls with
  | [] => []
  | githubUrl :: rest =>
      match calculateBusFactorForRepo githubUrl w with
      | (Returned result, w1) =>
          result :: printed rest (snd (consoleLog result w1))
      | (Thrown _, _) => []
      end
  end.

(** The world in which the loop of [main] starts. *)
Definition afterRead (w : World Ext) : World Ext :=
  mkWorld (ext w) (files w) [] (stdout w) (stderr w).

End Program.

(** The request that [fetchContributors] sends for a repository. *)
Definition contributorsUrl (info : RepoInfo) : string :=
  GITHUB_API_BASE_URL +:+ "/repos/" +:+ owner info +:+ "/" +:+ repo info
    +:+ "/contributors".

End Script.

(* ===================================================================== *)
(** * Properties *)
(* ===================================================================== *)

(** ** Rounding to binary64 *)

Module Binary64Facts.
Import Binary64.
Local Open Scope Q_scope.

Lemma pow2_pos z : 0 < pow2 z.
Proof. apply Qpower_0_lt. reflexivity. Qed.

Lemma pow2_plus a b : pow2 (a + b) == pow2 a * pow2 b.
Proof. apply Qpower_plus. discriminate. Qed.

Lemma pow2_le a b : (a <= b)%Z -> pow2 a <= pow2 b.
Proof. intros H. apply Qpower_le_compat_l; [done|]. discriminate. Qed.

Lemma pow2_lt a b : (a < b)%Z -> pow2 a < pow2 b.
Proof. intros H. apply Qpower_lt_compat_l; [done|]. reflexivity. Qed.

Lemma pow2_inject k : (0 <= k)%Z -> inject_Z (2 ^ k) == pow2 k.
Proof. intros H. by rewrite Zpower_Qpower. Qed.

Lemma Qmake_div n d : n # d == inject_Z n / inject_Z (Zpos d).
Proof. rewrite Qmake_Qdiv. reflexivity. Qed.

Lemma ilog2_spec x :
  0 < x -> pow2 (ilog2 x) <= x /\ x < pow2 (ilog2 x + 1).
Proof.
  intros Hx. destruct x as [n d]. unfold ilog2. simpl Qnum. simpl Qden.
  assert (Hn : (0 < n)%Z) by (unfold Qlt in Hx; simpl in Hx; lia).
  set (a := Z.log2 n). set (b := Z.log2 (Z.pos d)).
  assert (Ha : (2 ^ a <= n < 2 ^ (a + 1))%Z).
  { pose proof (Z.log2_spec n Hn). unfold a. by rewrite <- Z.add_1_r in H. }
  assert (Hb : (2 ^ b <= Z.pos d < 2 ^ (b + 1))%Z).
  { pose proof (Z.log2_spec (Z.pos d) ltac:(lia)). unfold b.
    by rewrite <- Z.add_1_r in H. }
  assert (Ha0 : (0 <= a)%Z) by apply Z.log2_nonneg.
  assert (Hb0 : (0 <= b)%Z) by apply Z.log2_nonneg.
  assert (Hd : 0 < inject_Z (Z.pos d)) by reflexivity.
  assert (Hup : n # d < pow2 (a - b + 1)).
  { rewrite Qmake_div. apply Qlt_shift_div_r; [done|].
    apply Qlt_le_trans with (inject_Z (2 ^ (a + 1))).
    - rewrite <- Zlt_Qlt. lia.
    - rewrite pow2_inject by lia.
      replace (a + 1)%Z with ((a - b + 1) + b)%Z by lia.
      rewrite pow2_plus. apply Qmult_le_l; [apply pow2_pos|].
      rewrite <- pow2_inject by lia. rewrite <- Zle_Qle. lia. }
  assert (Hlow : pow2 (a - b - 1) < n # d).
  { rewrite Qmake_div. apply Qlt_shift_div_l; [done|].
    apply Qlt_le_trans with (inject_Z (2 ^ a)).
    - rewrite pow2_inject by lia.
      replace a with ((a - b - 1) + (b + 1))%Z at 2 by lia.
      rewrite pow2_plus. apply Qmult_lt_l; [apply pow2_pos|].
      rewrite <- pow2_inject by lia. rewrite <- Zlt_Qlt. lia.
    - rewrite <- Zle_Qle. lia. }
  destruct (Qle_bool (pow2 (a - b)) (n # d)) eqn:E.
  - apply Qle_bool_iff in E. by split.
  - split; [by apply Qlt_le_weak|].
    replace (a - b - 1 + 1)%Z with (a - b)%Z by lia.
    apply Qnot_le_lt. intros H. apply Qle_bool_iff in H. congruence.
Qed.

Lemma ilog2_unique x e :
  pow2 e <= x -> x < pow2 (e + 1) -> ilog2 x = e.
Proof.
  intros H1 H2.
  assert (Hx : 0 < x) by (eapply Qlt_le_trans; [apply pow2_pos|exact H1]).
  destruct (ilog2_spec x Hx) as [H3 H4].
  assert (pow2 e < pow2 (ilog2 x + 1)) by (eapply Qle_lt_trans; eauto).
  assert (pow2 (ilog2 x) < pow2 (e + 1)) by (eapply Qle_lt_trans; eauto).
  apply Qpower_lt_compat_l_inv in H; [|reflexivity].
  apply Qpower_lt_compat_l_inv in H0; [|reflexivity]. lia.
Qed.

Lemma ilog2_mono x y : 0 < x -> x <= y -> (ilog2 x <= ilog2 y)%Z.
Proof.
  intros Hx Hxy.
  assert (Hy : 0 < y) by (eapply Qlt_le_trans; eauto).
  destruct (ilog2_spec x Hx) as [H1 _]. destruct (ilog2_spec y Hy) as [_ H2].
  assert (pow2 (ilog2 x) < pow2 (ilog2 y + 1)).
  { eapply Qle_lt_trans; [exact H1|]. eapply Qle_lt_trans; eauto. }
  apply Qpower_lt_compat_l_inv in H; [|reflexivity]. lia.
Qed.

(** *** Rounding to an integer *)

Lemma Qcompare_prop a b c :
  Qcompare a b = c ->
  match c with Eq => a == b | Lt => a < b | Gt => b < a end.
Proof.
  intros <-. destruct (Qcompare a b) eqn:E.
  - by apply Qeq_alt. - by apply Qlt_alt. - by apply Qgt_alt.
Qed.

Lemma roundNE_near m :
  m - (1 # 2) <= inject_Z (roundNE m) /\ inject_Z (roundNE m) <= m + (1 # 2).
Proof.
  unfold roundNE. pose proof (Qfloor_le m) as Hf.
  pose proof (Qlt_floor m) as Hc. rewrite inject_Z_plus in Hc.
  change (inject_Z 1) with 1 in Hc.
  destruct (Qcompare (m - inject_Z (Qfloor m)) (1 # 2)) eqn:E;
    rewrite <- ?Qeq_alt, <- ?Qlt_alt, <- ?Qgt_alt in E;
    try destruct (Z.even _); rewrite ?inject_Z_plus;
    change (inject_Z 1) with 1; split; lra.
Qed.

Lemma roundNE_mono m1 m2 : m1 <= m2 -> (roundNE m1 <= roundNE m2)%Z.
Proof.
  intros H. pose proof (Qfloor_resp_le _ _ H) as Hfl.
  destruct (Z.eq_dec (Qfloor m1) (Qfloor m2)) as [Ef|Nf].
  - unfold roundNE. rewrite Ef.
    destruct (Qcompare (m1 - inject_Z (Qfloor m2)) (1 # 2)) eqn:E1;
      destruct (Qcompare (m2 - inject_Z (Qfloor m2)) (1 # 2)) eqn:E2;
      try destruct (Z.even _); try lia; exfalso;
      apply Qcompare_prop in E1; apply Qcompare_prop in E2; lra.
  - assert (Hlt : (Qfloor m1 + 1 <= Qfloor m2)%Z) by lia.
    assert (H1 : (roundNE m1 <= Qfloor m1 + 1)%Z).
    { unfold roundNE. destruct (Qcompare _ _); try destruct (Z.even _); lia. }
    assert (H2 : (Qfloor m2 <= roundNE m2)%Z).
    { unfold roundNE. destruct (Qcompare _ _); try destruct (Z.even _); lia. }
    lia.
Qed.

Lemma roundNE_Z z : roundNE (inject_Z z) = z.
Proof.
  unfold roundNE. rewrite Qfloor_Z.
  assert (E : Qcompare (inject_Z z - inject_Z z) (1 # 2) = Lt)
    by (rewrite <- Qlt_alt; lra).
  by rewrite E.
Qed.

(** *** Rounding to binary64 *)

Section Positive.
Variable x : Q.
Hypothesis Hx : 0 < x.

Let e' : Z := Z.max (ilog2 x) emin.

Lemma ulp_pos : 0 < ulp x.
Proof. apply pow2_pos. Qed.

Lemma scaled_mult : x / ulp x * ulp x == x.
Proof. field. pose proof ulp_pos. lra. Qed.

Lemma scaled_upper : x / ulp x <= inject_Z (2 ^ 53).
Proof.
  apply Qle_shift_div_r; [apply ulp_pos|].
  rewrite pow2_inject by lia. unfold ulp. rewrite <- pow2_plus.
  destruct (ilog2_spec x Hx) as [_ H]. apply Qlt_le_weak.
  eapply Qlt_le_trans; [exact H|]. apply pow2_le. lia.
Qed.

Lemma scaled_lower :
  (emin <= ilog2 x)%Z -> inject_Z (2 ^ 52) <= x / ulp x.
Proof.
  intros He. apply Qle_shift_div_l; [apply ulp_pos|].
  rewrite pow2_inject by lia. unfold ulp. rewrite <- pow2_plus.
  destruct (ilog2_spec x Hx) as [H _].
  eapply Qle_trans; [|exact H]. apply pow2_le. lia.
Qed.

Lemma round64pos_upper : round64pos x <= pow2 (e' + 1).
Proof.
  unfold round64pos.
  assert (H : inject_Z (roundNE (x / ulp x)) <= inject_Z (2 ^ 53)).
  { rewrite <- Zle_Qle. rewrite <- (roundNE_Z (2 ^ 53)).
    apply roundNE_mono, scaled_upper. }
  apply Qle_trans with (inject_Z (2 ^ 53) * ulp x).
  - apply Qmult_le_compat_r; [done|]. apply Qlt_le_weak, ulp_pos.
  - rewrite pow2_inject by lia. unfold ulp. rewrite <- pow2_plus.
    apply pow2_le. unfold e'. lia.
Qed.

Lemma round64pos_lower :
  (emin <= ilog2 x)%Z -> pow2 (ilog2 x) <= round64pos x.
Proof.
  intros He. unfold round64pos.
  assert (H : inject_Z (2 ^ 52) <= inject_Z (roundNE (x / ulp x))).
  { rewrite <- Zle_Qle. rewrite <- (roundNE_Z (2 ^ 52)) at 1.
    by apply roundNE_mono, scaled_lower. }
  apply Qle_trans with (inject_Z (2 ^ 52) * ulp x).
  - rewrite pow2_inject by lia. unfold ulp. rewrite <- pow2_plus.
    apply pow2_le. lia.
  - apply Qmult_le_compat_r; [done|]. apply Qlt_le_weak, ulp_pos.
Qed.

Lemma round64pos_nonneg : 0 <= round64pos x.
Proof.
  unfold round64pos. apply Qmult_le_0_compat; [|apply Qlt_le_weak, ulp_pos].
  change 0 with (inject_Z 0). rewrite <- Zle_Qle.
  rewrite <- (roundNE_Z 0) at 1. apply roundNE_mono.
  apply Qle_shift_div_l; [apply ulp_pos|].
  change (inject_Z 0) with 0. lra.
Qed.

(** The relative error is at most [2^-53] in the normal range. *)
Lemma round64pos_error :
  (emin <= ilog2 x)%Z ->
  x * (1 - pow2 (-53)) <= round64pos x
  /\ round64pos x <= x * (1 + pow2 (-53)).
Proof.
  intros He. destruct (roundNE_near (x / ulp x)) as [H1 H2].
  pose proof ulp_pos as Hu. pose proof scaled_mult as Hm.
  assert (Hhalf : (1 # 2) * ulp x <= x * pow2 (-53)).
  { destruct (ilog2_spec x Hx) as [H _].
    apply Qle_trans with (pow2 (ilog2 x) * pow2 (-53)).
    - assert (E : ulp x = pow2 (ilog2 x - 52))
        by (unfold ulp; f_equal; lia).
      rewrite E. change (1 # 2) with (pow2 (-1)).
      rewrite <- !pow2_plus. apply pow2_le. lia.
    - apply Qmult_le_compat_r; [done|]. apply Qlt_le_weak, pow2_pos. }
  unfold round64pos.
  apply (Qmult_le_compat_r _ _ (ulp x)) in H1; [|lra].
  apply (Qmult_le_compat_r _ _ (ulp x)) in H2; [|lra].
  split; lra.
Qed.

End Positive.

Lemma round64pos_mono x y :
  0 < x -> x <= y -> round64pos x <= round64pos y.
Proof.
  intros Hx Hxy.
  assert (Hy : 0 < y) by (eapply Qlt_le_trans; eauto).
  pose proof (ilog2_mono x y Hx Hxy) as He.
  destruct (Z.eq_dec (Z.max (ilog2 x) emin) (Z.max (ilog2 y) emin)) as [E|N].
  - unfold round64pos, ulp. rewrite E.
    apply Qmult_le_compat_r; [|apply Qlt_le_weak, pow2_pos].
    rewrite <- Zle_Qle. apply roundNE_mono.
    apply Qmult_le_compat_r; [done|].
    apply Qlt_le_weak, Qinv_lt_0_compat, pow2_pos.
  - assert (Hn : (emin <= ilog2 y)%Z) by lia.
    eapply Qle_trans; [apply round64pos_upper, Hx|].
    eapply Qle_trans; [|apply round64pos_lower; done].
    apply pow2_le. lia.
Qed.

Lemma round64_nonneg x : 0 <= x -> 0 <= round64 x.
Proof.
  intros H. unfold round64. destruct (Qcompare x 0) eqn:E;
    apply Qcompare_prop in E; [lra| lra |by apply round64pos_nonneg].
Qed.

Lemma round64_mono x y : 0 <= x -> x <= y -> round64 x <= round64 y.
Proof.
  intros Hx Hxy. unfold round64.
  destruct (Qcompare x 0) eqn:E1; apply Qcompare_prop in E1;
    destruct (Qcompare y 0) eqn:E2; apply Qcompare_prop in E2; try lra.
  - by apply round64pos_nonneg.
  - by apply round64pos_mono.
Qed.

Lemma round64_error x :
  0 <= x -> (x == 0 \/ pow2 emin <= x) ->
  x * (1 - pow2 (-53)) <= round64 x /\ round64 x <= x * (1 + pow2 (-53)).
Proof.
  intros Hx Hn. unfold round64.
  destruct (Qcompare x 0) eqn:E; apply Qcompare_prop in E.
  - rewrite E. split; lra.
  - lra.
  - destruct Hn as [Hn|Hn]; [lra|].
    apply round64pos_error; [done|].
    destruct (ilog2_spec x E) as [_ H].
    assert (pow2 emin < pow2 (ilog2 x + 1)) by (eapply Qle_lt_trans; eauto).
    apply Qpower_lt_compat_l_inv in H0; [|reflexivity]. lia.
Qed.

Lemma round64_1 : round64 1 == 1.
Proof. by vm_compute. Qed.

Lemma round64_100 : round64 100 == 100.
Proof. by vm_compute. Qed.

End Binary64Facts.

(** ** Comparison of numbers *)

Module JsNumberFacts.
Import Binary64 Binary64Facts JsNumber.

Lemma jsle_trans x y z : jsle x y = true -> jsle y z = true -> jsle x z = true.
Proof.
  destruct x, y, z; simpl; try congruence.
  rewrite !Qle_bool_iff. apply Qle_trans.
Qed.

Lemma jsge_antitone x t1 t2 :
  jsle t1 t2 = true -> jsge x t2 = true -> jsge x t1 = true.
Proof. unfold jsge. apply jsle_trans. Qed.

Lemma jsle_NaN_r x : jsle x NaN = false.
Proof. by destruct x. Qed.

(** Between 0 and 100 nothing overflows: the operation delivers the
    rounded value, which is between 0 and 100 too. *)
Lemma fin64_small q :
  (0 <= q)%Q -> (q <= 100)%Q ->
  fin64 q = Fin (round64 q) /\ (0 <= round64 q <= 100)%Q.
Proof.
  intros H0 H100.
  assert (Hr0 : (0 <= round64 q)%Q) by (by apply round64_nonneg).
  assert (Hr1 : (round64 q <= 100)%Q).
  { rewrite <- round64_100. by apply round64_mono. }
  split; [|done]. unfold fin64.
  assert (Hbig : (128 <= pow2 1024)%Q).
  { change 128%Q with (pow2 7). apply pow2_le. lia. }
  destruct (Qle_bool (pow2 1024) (round64 q)) eqn:E1.
  { apply Qle_bool_iff in E1. lra. }
  destruct (Qle_bool (round64 q) (- pow2 1024)) eqn:E2; [|done].
  apply Qle_bool_iff in E2. lra.
Qed.

Lemma ofN_div_pos (a b : N) :
  (0 < b)%N ->
  jsdiv (ofN a) (ofN b) = fin64 (inject_Z (Z.of_N a) / inject_Z (Z.of_N b)).
Proof.
  intros Hb. unfold jsdiv, ofN.
  destruct (Qeq_bool (inject_Z (Z.of_N b)) 0) eqn:E; [|done].
  apply Qeq_bool_eq in E. unfold Qeq in E. simpl in E. lia.
Qed.

Lemma ofN_div_zero : jsdiv (ofN 0) (ofN 0) = NaN.
Proof. reflexivity. Qed.

End JsNumberFacts.

(** ** Bus factor *)

Module BusFactorFacts.
Import Binary64 Binary64Facts JsNumber JsNumberFacts BusFactor Scenario.

(** *** The sum *)

Lemma fold_sum_acc (l : list Contributor) (a : N) :
  fold_left (fun acc c => (acc + contributions c)%N) l a
  = (a + totalCommitsOf l)%N.
Proof.
  unfold totalCommitsOf. revert a.
  induction l as [|c l IH]; intros a; simpl; [lia|].
  rewrite (IH (a + contributions c)%N), (IH (0 + contributions c)%N). lia.
Qed.

Lemma totalCommitsOf_cons c l :
  totalCommitsOf (c :: l) = (contributions c + totalCommitsOf l)%N.
Proof. unfold totalCommitsOf at 1. simpl. apply fold_sum_acc. Qed.

Lemma totalCommitsOf_perm l1 l2 :
  Permutation l1 l2 -> totalCommitsOf l1 = totalCommitsOf l2.
Proof.
  induction 1; rewrite ?totalCommitsOf_cons in *; try lia; congruence.
Qed.

Lemma totalCommitsOf_map l1 l2 :
  map contributions l1 = map contributions l2 ->
  totalCommitsOf l1 = totalCommitsOf l2.
Proof.
  revert l2. induction l1 as [|a l1 IH]; intros [|b l2] H; try done.
  simpl in H. injection H as Hc Hl.
  rewrite !totalCommitsOf_cons, Hc. f_equal. by apply IH.
Qed.

Lemma totalCommitsOf_zero l :
  totalCommitsOf l = 0%N -> Forall (fun c => contributions c = 0%N) l.
Proof.
  induction l as [|c l IH]; [constructor|].
  rewrite totalCommitsOf_cons. intros H.
  constructor; [lia|]. apply IH. lia.
Qed.

Lemma topSum_S c l k : topSum (c :: l) (S k) = (contributions c + topSum l k)%N.
Proof. unfold topSum. simpl. apply totalCommitsOf_cons. Qed.

Lemma topSum_all l : topSum l (length l) = totalCommitsOf l.
Proof. unfold topSum. by rewrite firstn_all. Qed.

(** *** The sort *)

Lemma insertStable_perm x l : Permutation (insertStable x l) (x :: l).
Proof.
  induction l as [|y l IH]; simpl; [done|].
  destruct (compareFn x y <=? 0)%Z; [done|].
  rewrite IH. apply perm_swap.
Qed.

Lemma sort_perm l : Permutation (sort l) l.
Proof.
  induction l as [|x l IH]; simpl; [done|].
  by rewrite insertStable_perm, IH.
Qed.

Lemma compareFn_le x y : (compareFn x y <=? 0)%Z = true <-> desc x y.
Proof. unfold compareFn, desc. rewrite Z.leb_le. lia. Qed.

Lemma compareFn_gt x y : (compareFn x y <=? 0)%Z = false -> desc y x.
Proof. unfold compareFn, desc. rewrite Z.leb_gt. lia. Qed.

Lemma desc_trans a b c : desc a b -> desc b c -> desc a c.
Proof. unfold desc. lia. Qed.

Lemma insertStable_sorted x l :
  StronglySorted desc l -> StronglySorted desc (insertStable x l).
Proof.
  induction 1 as [|y l Hl IH Hy]; simpl.
  - repeat constructor.
  - destruct (compareFn x y <=? 0)%Z eqn:E.
    + apply compareFn_le in E. constructor; [by constructor|].
      constructor; [done|].
      eapply Forall_impl; [exact Hy|]. intros z Hz. by eapply desc_trans.
    + apply compareFn_gt in E. constructor; [done|].
      rewrite (Forall_forall (desc y)). intros z Hz.
      rewrite (insertStable_perm x l) in Hz.
      apply elem_of_cons in Hz as [->|Hz]; [done|].
      rewrite Forall_forall in Hy. by apply Hy.
Qed.

Lemma sort_sorted l : StronglySorted desc (sort l).
Proof.
  induction l as [|x l IH]; simpl; [constructor|].
  by apply insertStable_sorted.
Qed.

Lemma sort_fixpoint l : StronglySorted desc l -> sort l = l.
Proof.
  induction 1 as [|x l Hl IH Hx]; simpl; [done|].
  rewrite IH. destruct l as [|y l]; [done|]. simpl.
  inversion Hx as [|? ? Hxy _]; subst.
  apply compareFn_le in Hxy. by rewrite Hxy.
Qed.

(** Two descending rankings of one list carry the same counts. *)
Lemma ranking_unique l1 l2 :
  Permutation l1 l2 -> StronglySorted desc l1 -> StronglySorted desc l2 ->
  map contributions l1 = map contributions l2.
Proof.
  intros Hp H1 H2.
  assert (AntiSymm eq (fun a b : N => (b <= a)%N)) by (intros a b ? ?; lia).
  change (contributions <$> l1 = contributions <$> l2).
  apply (StronglySorted_unique (fun a b : N => (b <= a)%N)).
  - eapply StronglySorted_fmap; [|exact H1]. by intros x y Hxy.
  - eapply StronglySorted_fmap; [|exact H2]. by intros x y Hxy.
  - by apply fmap_Permutation.
Qed.

Lemma topSum_ranking l1 l2 k :
  Permutation l1 l2 -> StronglySorted desc l1 -> StronglySorted desc l2 ->
  topSum l1 k = topSum l2 k.
Proof.
  intros Hp H1 H2. unfold topSum. apply totalCommitsOf_map.
  rewrite <- !firstn_map. f_equal. by apply ranking_unique.
Qed.

(** *** The loop *)

Lemma count_pos (n : N) : (0 < n)%N -> (0 < inject_Z (Z.of_N n))%Q.
Proof. intros H. unfold Qlt. simpl. lia. Qed.

Lemma count_nonneg (n : N) : (0 <= inject_Z (Z.of_N n))%Q.
Proof. unfold Qle. simpl. lia. Qed.

Lemma count_le (a b : N) :
  (a <= b)%N -> (inject_Z (Z.of_N a) <= inject_Z (Z.of_N b))%Q.
Proof. intros H. rewrite <- Zle_Qle. lia. Qed.

Lemma count_exact (n : N) :
  exactCounts n -> (inject_Z (Z.of_N n) <= pow2 53)%Q.
Proof.
  unfold exactCounts. intros H. rewrite <- pow2_inject by lia.
  rewrite <- Zle_Qle. change (2 ^ 53)%Z with (Z.of_N (2 ^ 53)). lia.
Qed.

Lemma share_times total sum :
  (0 < total)%N ->
  (inject_Z (Z.of_N sum) / inject_Z (Z.of_N total) * inject_Z (Z.of_N total)
   == inject_Z (Z.of_N sum))%Q.
Proof.
  intros Ht. apply count_pos in Ht. field. intros E. rewrite E in Ht.
  by apply Qlt_irrefl in Ht.
Qed.

Lemma share_unit total sum :
  (0 < total)%N -> (sum <= total)%N ->
  (0 <= inject_Z (Z.of_N sum) / inject_Z (Z.of_N total) <= 1)%Q.
Proof.
  intros Ht Hs. pose proof (count_pos _ Ht) as HT.
  pose proof (count_nonneg sum) as HS. apply count_le in Hs. split.
  - apply Qle_shift_div_l; [done|]. lra.
  - apply Qle_shift_div_r; [done|]. lra.
Qed.

(** It is a number between 0 and 100. *)
Lemma contributionPercentage_fin total sum :
  (0 < total)%N -> (sum <= total)%N ->
  contributionPercentage sum total = Fin (percentage64 total sum)
  /\ (0 <= percentage64 total sum <= 100)%Q.
Proof.
  intros Ht Hs. unfold contributionPercentage, percentage64.
  rewrite ofN_div_pos by done.
  destruct (share_unit total sum Ht Hs) as [H0 H1].
  set (q := (inject_Z (Z.of_N sum) / inject_Z (Z.of_N total))%Q) in *.
  destruct (fin64_small q) as [-> [Hr0 _]]; [done|lra|].
  assert (Hr1 : (round64 q <= 1)%Q).
  { rewrite <- round64_1. by apply round64_mono. }
  cbv beta iota delta [jsmul].
  destruct (fin64_small (round64 q * 100)) as [-> Hp]; [lra|lra|done].
Qed.

Lemma tolerance_bounds :
  (tolerance == 4 * pow2 (-53))%Q /\ (0 < pow2 (-53))%Q
  /\ (pow2 (-53) <= 1 # 2)%Q
  /\ (pow2 emin <= pow2 (-54))%Q /\ (pow2 (-53) == 2 * pow2 (-54))%Q.
Proof.
  split; [|split; [|split; [|split]]].
  - unfold tolerance. change 4%Q with (pow2 2). rewrite <- pow2_plus.
    reflexivity.
  - apply pow2_pos.
  - change (1 # 2)%Q with (pow2 (-1)). apply pow2_le. lia.
  - apply pow2_le. unfold emin. lia.
  - change 2%Q with (pow2 1). rewrite <- pow2_plus. reflexivity.
Qed.

(** It lies within the tolerance of the exact percentage. *)
Lemma percentage64_error total sum :
  (0 < total)%N -> exactCounts total -> (sum <= total)%N ->
  (100 * (inject_Z (Z.of_N sum) / inject_Z (Z.of_N total)) * (1 - tolerance)
   <= percentage64 total sum
   <= 100 * (inject_Z (Z.of_N sum) / inject_Z (Z.of_N total))
      * (1 + tolerance))%Q.
Proof.
  intros Ht Hex Hs. unfold percentage64.
  destruct (share_unit total sum Ht Hs) as [H0 H1].
  pose proof (share_times total sum Ht) as Hq.
  pose proof (count_pos _ Ht) as HT. apply count_exact in Hex.
  destruct tolerance_bounds as (Htol & Hu0 & Hu1 & Hmin & Hu2).
  set (q := (inject_Z (Z.of_N sum) / inject_Z (Z.of_N total))%Q) in *.
  set (u := pow2 (-53)) in *.
  assert (Hunit : (u * pow2 53 == 1)%Q).
  { unfold u. rewrite <- pow2_plus. reflexivity. }
  assert (Hn : (q == 0 \/ u <= q)%Q).
  { destruct (N.eq_dec sum 0%N) as [->|Hne].
    - left. unfold q, Qdiv. apply Qmult_0_l.
    - right. assert (H1S : (1 <= inject_Z (Z.of_N sum))%Q).
      { change 1%Q with (inject_Z 1). rewrite <- Zle_Qle. lia. }
      apply Qle_shift_div_l; [done|]. nra. }
  destruct (round64_error q H0) as [E1 E2].
  { destruct Hn; [by left|right]. fold u in Hu2. lra. }
  fold u in E1, E2. set (r := round64 q) in *.
  assert (Hr0 : (0 <= r)%Q) by (by apply round64_nonneg).
  destruct (round64_error (r * 100)) as [E3 E4]; [lra| |].
  { destruct Hn as [Hz|Hn].
    - left. rewrite Hz in E2. lra.
    - right. fold u in Hu2. nra. }
  fold u in E3, E4. rewrite Htol. split; nra.
Qed.

(** What a test of the loop says about the exact share. *)
Lemma hit_within threshold total sum :
  (0 < total)%N -> exactCounts total -> (sum <= total)%N ->
  (hit threshold total sum = true ->
   reachesWithin (1 + tolerance) threshold total sum)
  /\ (hit threshold total sum = false ->
      ~ reachesWithin (1 - tolerance) threshold total sum).
Proof.
  intros Ht Hex Hs. unfold hit, jsge.
  destruct (contributionPercentage_fin total sum Ht Hs) as [-> _].
  pose proof (percentage64_error total sum Ht Hex Hs) as [E1 E2].
  pose proof (share_times total sum Ht) as Hq.
  pose proof (count_pos _ Ht) as HT.
  set (p := percentage64 total sum) in *.
  set (q := (inject_Z (Z.of_N sum) / inject_Z (Z.of_N total))%Q) in *.
  destruct threshold as [q0| | |]; simpl.
  2-4: split; intros; first [done | tauto].
  rewrite <- Hq. split.
  - rewrite Qle_bool_iff. intros H. nra.
  - intros H Hr.
    assert (Hlt : ~ (q0 <= p)%Q) by (rewrite <- Qle_bool_iff; congruence).
    apply Hlt. nra.
Qed.

Lemma round64_half : (round64 (1 # 2) == 1 # 2)%Q.
Proof. by vm_compute. Qed.

Lemma round64_50 : (round64 50 == 50)%Q.
Proof. by vm_compute. Qed.

(** The binary64 number next below one half, and what 100 times it
    rounds to. *)
Lemma round64_below_half :
  (round64 ((1 # 2) - pow2 (-54)) == (1 # 2) - pow2 (-54))%Q
  /\ (round64 (((1 # 2) - pow2 (-54)) * 100) < 50)%Q.
Proof. split; by vm_compute. Qed.

(** At 50 percent the test of the loop is the exact comparison. *)
Lemma hit_half total sum :
  (0 < total)%N -> exactCounts total -> (sum <= total)%N ->
  hit (Fin 50) total sum = true <-> reaches (Fin 50) total sum.
Proof.
  intros Ht Hex Hs. unfold hit, jsge.
  destruct (contributionPercentage_fin total sum Ht Hs) as [-> _].
  unfold percentage64. simpl. rewrite Qle_bool_iff.
  destruct (share_unit total sum Ht Hs) as [H0 H1].
  pose proof (share_times total sum Ht) as Hq.
  pose proof (count_pos _ Ht) as HT.
  pose proof (count_exact _ Hex) as HX.
  set (S := inject_Z (Z.of_N sum)) in *.
  set (T := inject_Z (Z.of_N total)) in *.
  set (q := (S / T)%Q) in *.
  split.
  - intros Hp. destruct (Qlt_le_dec (100 * S) (50 * T)) as [Hlt|]; [|done].
    exfalso.
    assert (Hz : (2 * Z.of_N sum + 1 <= Z.of_N total)%Z).
    { assert (2 * Z.of_N sum < Z.of_N total)%Z; [|lia].
      rewrite Zlt_Qlt, inject_Z_mult. fold S T.
      change (inject_Z 2) with 2%Q. lra. }
    rewrite Zle_Qle, inject_Z_plus, inject_Z_mult in Hz. fold S T in Hz.
    change (inject_Z 2) with 2%Q in Hz. change (inject_Z 1) with 1%Q in Hz.
    destruct round64_below_half as [Eh Hh].
    destruct tolerance_bounds as (_ & _ & _ & _ & Hu2).
    assert (Hunit : (pow2 (-54) * pow2 53 == 1 # 2)%Q).
    { rewrite <- pow2_plus. reflexivity. }
    set (c := pow2 (-54)) in *.
    assert (Hc : (0 < c)%Q) by apply pow2_pos.
    assert (Hqh : (q <= (1 # 2) - c)%Q).
    { apply Qle_shift_div_r; [done|]. nra. }
    assert (Hr : (round64 q <= (1 # 2) - c)%Q).
    { rewrite <- Eh. by apply round64_mono. }
    assert (Hr0 : (0 <= round64 q)%Q) by (by apply round64_nonneg).
    assert (Hp' : (round64 (round64 q * 100)
                   <= round64 (((1 # 2) - c) * 100))%Q).
    { apply round64_mono; lra. }
    lra.
  - intros Hr.
    assert (Hqh : ((1 # 2) <= q)%Q).
    { apply Qle_shift_div_l; [done|]. lra. }
    assert (Hr' : ((1 # 2) <= round64 q)%Q).
    { rewrite <- round64_half. apply round64_mono; [lra|done]. }
    rewrite <- round64_50. apply round64_mono; lra.
Qed.

Lemma hit_zero_total threshold : hit threshold 0 0 = false.
Proof. unfold hit, jsge. apply jsle_NaN_r. Qed.

Lemma hit_antitone t1 t2 total sum :
  jsle t1 t2 = true -> hit t2 total sum = true -> hit t1 total sum = true.
Proof. unfold hit. apply jsge_antitone. Qed.

Lemma forOf_ge threshold total l commitSum busFactor :
  busFactor <= forOf threshold total l commitSum busFactor.
Proof.
  revert commitSum busFactor.
  induction l as [|c l IH]; intros s b; simpl; [lia|].
  destruct (jsge _ _); [lia|].
  specialize (IH (s + contributions c)%N (b + 1)). lia.
Qed.

(** The loop stops at the first element on which the test succeeds, and
    at the end of the list when it succeeds on none. *)
Lemma forOf_first threshold total l :
  forall commitSum busFactor,
  exists k,
    forOf threshold total l commitSum busFactor = busFactor + k
    /\ k <= length l
    /\ (l <> [] -> 1 <= k)
    /\ (forall j, 1 <= j < k ->
          hit threshold total (commitSum + topSum l j) = false)
    /\ (hit threshold total (commitSum + topSum l k) = true
        \/ k = length l).
Proof.
  induction l as [|c l IH]; intros s b; simpl.
  - exists 0. split; [lia|]. split; [done|]. split; [done|].
    split; [lia|by right].
  - destruct (jsge (contributionPercentage (s + contributions c) total)
                   threshold) eqn:E.
    + exists 1. split; [done|]. split; [lia|]. split; [done|].
      split; [lia|].
      left. rewrite topSum_S. unfold topSum. simpl.
      unfold hit, totalCommitsOf. simpl. by rewrite N.add_0_r.
    + destruct (IH (s + contributions c)%N (b + 1))
        as (k & Hk & Hlen & _ & Hbefore & Hat).
      exists (S k). split; [lia|]. split; [lia|]. split; [lia|]. split.
      * intros [|[|j]] Hj; [lia| |].
        -- rewrite topSum_S. unfold topSum, totalCommitsOf, hit. simpl.
           by rewrite N.add_0_r.
        -- rewrite topSum_S, N.add_assoc. apply Hbefore. lia.
      * destruct Hat as [Hat| ->]; [left|by right].
        by rewrite topSum_S, N.add_assoc.
Qed.

Lemma forOf_zero_total threshold l busFactor :
  Forall (fun c => contributions c = 0%N) l ->
  forOf threshold 0 l 0 busFactor = busFactor + length l.
Proof.
  intros H. revert busFactor.
  induction H as [|c l Hc _ IH]; intros b; simpl; [lia|].
  rewrite Hc. change (jsge _ _) with (hit threshold 0 0).
  rewrite hit_zero_total, IH. lia.
Qed.

Lemma forOf_monotone t1 t2 total l :
  jsle t1 t2 = true ->
  forall commitSum busFactor,
    forOf t1 total l commitSum busFactor
    <= forOf t2 total l commitSum busFactor.
Proof.
  intros Ht. induction l as [|c l IH]; intros s b; simpl; [lia|].
  destruct (jsge _ t2) eqn:E2.
  - change (hit t2 total (s + contributions c) = true) in E2.
    apply (hit_antitone _ _ _ _ Ht) in E2. unfold hit in E2.
    by rewrite E2.
  - destruct (jsge _ t1); [|apply IH].
    apply (forOf_ge t2 total l (s + contributions c)%N (b + 1)).
Qed.

Lemma reaches_everything threshold total :
  jsle threshold (Fin 100) = true -> reaches threshold total total.
Proof.
  destruct threshold as [q| | |]; simpl; try done.
  rewrite Qle_bool_iff. intros Hq.
  apply Qmult_le_compat_r; [done|].
  unfold Qle. simpl. lia.
Qed.

Lemma reachesWithin_everything threshold total :
  jsle threshold (Fin 100) = true ->
  reachesWithin (1 + tolerance) threshold total total.
Proof.
  destruct threshold as [q| | |]; simpl; try done.
  rewrite Qle_bool_iff. intros Hq.
  pose proof (count_nonneg total) as HT.
  assert (Htol : (0 < tolerance)%Q) by apply pow2_pos.
  nra.
Qed.

Lemma topSum_le l : forall k, (topSum l k <= totalCommitsOf l)%N.
Proof.
  induction l as [|c l IH]; intros [|k]; try (unfold topSum; simpl; lia).
  - unfold topSum. simpl. unfold totalCommitsOf at 1. simpl. lia.
  - rewrite topSum_S, totalCommitsOf_cons. specialize (IH k). lia.
Qed.


Lemma topSum_sort_le contributors k :
  (topSum (sort contributors) k <= totalCommitsOf contributors)%N.
Proof.
  rewrite <- (totalCommitsOf_perm _ _ (sort_perm contributors)).
  apply topSum_le.
Qed.

(** *** The claims *)

(** C2, as amended: for every contributor list with positive total
    contributions and every threshold that is at most 100,
    [calculateBusFactor] returns, when the total is below [2^53], the
    least number [k >= 1] of top contributors, in descending order of
    contribution count, whose cumulative share reaches the threshold
    percentage of the total up to the rounding of the percentage to
    binary64: 100 times the exact share of the top [k], times
    [1 + 2^-51], is at least the threshold, and 100 times the exact share
    of every shorter prefix, times [1 - 2^-51], is below it.  At the
    threshold 50, which is the default and the value the callers pass,
    [k] is the least number whose exact share is at least 50 percent.
    For a list of one contributor it returns 1. *)
Theorem calculateBusFactor_first_reach contributors threshold :
  (0 < totalCommitsOf contributors)%N ->
  jsle threshold (Fin 100) = true ->
  (exactCounts (totalCommitsOf contributors) ->
     isBusFactorWithin tolerance contributors threshold
                       (fst (calculateBusFactor contributors threshold)))
  /\ (exactCounts (totalCommitsOf contributors) ->
      threshold = defaultThreshold ->
      isBusFactor contributors threshold
                  (fst (calculateBusFactor contributors threshold)))
  /\ (forall c, contributors = [c] ->
        fst (calculateBusFactor contributors threshold) = 1).
Proof.
  intros Hpos Hthr. unfold calculateBusFactor. simpl.
  set (total := totalCommitsOf contributors) in *.
  destruct (forOf_first threshold total (sort contributors) 0%N 0)
    as (k & Hk & Hlen & Hone & Hbefore & Hat).
  rewrite Hk. simpl.
  assert (Hne : sort contributors <> []).
  { intros E. pose proof (totalCommitsOf_perm _ _ (sort_perm contributors)) as Hs.
    rewrite E in Hs. fold total in Hs. unfold totalCommitsOf in Hs at 1.
    simpl in Hs. lia. }
  assert (Hranked : forall ranked,
            Permutation ranked contributors -> StronglySorted desc ranked ->
            length ranked = length (sort contributors)
            /\ forall j, topSum ranked j = topSum (sort contributors) j).
  { intros ranked Hperm Hsorted.
    assert (Hp : Permutation ranked (sort contributors))
      by (by rewrite sort_perm).
    split; [apply (Permutation_length Hp)|].
    intros j. apply topSum_ranking; auto using sort_sorted. }
  assert (Hle : forall j, (topSum (sort contributors) j <= total)%N)
    by (intros j; apply topSum_sort_le).
  setoid_rewrite N.add_0_l in Hbefore. rewrite N.add_0_l in Hat.
  split; [|split].
  - intros Hex ranked Hperm Hsorted.
    destruct (Hranked ranked Hperm Hsorted) as [-> Hsum].
    split; [auto|]. split.
    + rewrite Hsum. destruct Hat as [Hat| ->].
      * by apply (hit_within threshold total _ Hpos Hex (Hle k)).
      * rewrite topSum_all, (totalCommitsOf_perm _ _ (sort_perm contributors)).
        by apply reachesWithin_everything.
    + intros j Hj. rewrite Hsum.
      apply (hit_within threshold total _ Hpos Hex (Hle j)). auto.
  - intros Hex ->. intros ranked Hperm Hsorted.
    destruct (Hranked ranked Hperm Hsorted) as [-> Hsum].
    split; [auto|]. split.
    + rewrite Hsum. destruct Hat as [Hat| ->].
      * by apply (hit_half total _ Hpos Hex (Hle k)).
      * rewrite topSum_all, (totalCommitsOf_perm _ _ (sort_perm contributors)).
        by apply reaches_everything.
    + intros j Hj Hreach. rewrite Hsum in Hreach.
      apply (hit_half total _ Hpos Hex (Hle j)) in Hreach.
      specialize (Hbefore j Hj). unfold defaultThreshold in Hbefore.
      congruence.
  - intros c ->. simpl in Hlen. specialize (Hone Hne). lia.
Qed.

Lemma calculateBusFactor_first_reach_witness :
  (0 < totalCommitsOf unrankedTeam)%N
  /\ jsle (Fin 50) (Fin 100) = true
  /\ exactCounts (totalCommitsOf unrankedTeam)
  /\ isBusFactorWithin tolerance unrankedTeam (Fin 50)
                       (fst (calculateBusFactor unrankedTeam (Fin 50)))
  /\ isBusFactor unrankedTeam (Fin 50)
                 (fst (calculateBusFactor unrankedTeam (Fin 50))).
Proof.
  assert (H1 : (0 < totalCommitsOf unrankedTeam)%N) by reflexivity.
  assert (H2 : jsle (Fin 50) (Fin 100) = true) by reflexivity.
  assert (H3 : exactCounts (totalCommitsOf unrankedTeam)) by reflexivity.
  split; [exact H1|]. split; [exact H2|]. split; [exact H3|].
  destruct (calculateBusFactor_first_reach unrankedTeam (Fin 50) H1 H2)
    as (Hwithin & Hexact & _).
  split; [exact (Hwithin H3)|exact (Hexact H3 eq_refl)].
Defined.

(** In that run the list is not in descending order, the shares
    accumulate over two contributors, 40 and then 70 percent, and the
    function returns 2. *)
Example calculateBusFactor_accumulates :
  fst (calculateBusFactor unrankedTeam (Fin 50)) = 2
  /\ snd (calculateBusFactor unrankedTeam (Fin 50))
     = [mkContributor "d" 40; mkContributor "c" 30;
        mkContributor "a" 20; mkContributor "b" 10].
Proof. by vm_compute. Qed.

(** Where the exact share equals the threshold the rounding decides: 57
    of 100 commits are 57 percent, the quotient rounded to binary64 times
    100 rounds to a number below 57, and at the threshold 57 the function
    returns 2, which is not the number of top contributors whose exact
    share first reaches 57 percent. *)
Example calculateBusFactor_rounding :
  contributionPercentage 57 100 = Fin (8022036836253695 # 140737488355328)
  /\ fst (calculateBusFactor closeCall (Fin 57)) = 2
  /\ ~ isBusFactor closeCall (Fin 57)
         (fst (calculateBusFactor closeCall (Fin 57))).
Proof.
  assert (E : fst (calculateBusFactor closeCall (Fin 57)) = 2)
    by (by vm_compute).
  split; [by vm_compute|]. split; [exact E|]. rewrite E. intros H.
  destruct (H closeCall) as (_ & _ & Hbefore).
  - reflexivity.
  - repeat constructor. unfold desc. simpl. lia.
  - apply (Hbefore 1); [lia|]. by vm_compute.
Qed.

(** C2, as stated, fails above 100 percent: one contributor holds all 5
    commits, the threshold is 150, the function returns 1, and the share
    of that one contributor does not reach 150 percent. *)
Lemma calculateBusFactor_above_100 :
  (0 < totalCommitsOf soleMaintainer)%N
  /\ ~ isBusFactor soleMaintainer (Fin 150)
         (fst (calculateBusFactor soleMaintainer (Fin 150))).
Proof.
  split; [reflexivity|]. intros H.
  destruct (H soleMaintainer) as (_ & Hreach & _).
  - reflexivity.
  - repeat constructor.
  - vm_compute in Hreach. by apply Hreach.
Qed.

(** C4: when the contribution counts sum to zero the division by the
    total yields [NaN], no test of the loop succeeds, and the function
    returns the length of the list; for the empty list that is 0. *)
Theorem calculateBusFactor_zero_total :
  (forall contributors threshold,
     totalCommitsOf contributors = 0%N ->
     fst (calculateBusFactor contributors threshold) = length contributors)
  /\ (forall threshold, fst (calculateBusFactor [] threshold) = 0).
Proof.
  split; [|done]. intros contributors threshold H.
  unfold calculateBusFactor. simpl. rewrite H.
  rewrite forOf_zero_total.
  - simpl. apply Permutation_length, sort_perm.
  - apply totalCommitsOf_zero.
    by rewrite (totalCommitsOf_perm _ _ (sort_perm contributors)).
Qed.

Lemma calculateBusFactor_zero_total_witness :
  totalCommitsOf idleContributors = 0%N
  /\ fst (calculateBusFactor idleContributors (Fin 50)) = 2.
Proof.
  split; [reflexivity|].
  exact (proj1 calculateBusFactor_zero_total idleContributors (Fin 50) eq_refl).
Defined.

(** C5: with the contributor list fixed, the returned count does not
    decrease when the threshold increases. *)
Theorem calculateBusFactor_monotone contributors t1 t2 :
  jsle t1 t2 = true ->
  fst (calculateBusFactor contributors t1)
  <= fst (calculateBusFactor contributors t2).
Proof. intros H. unfold calculateBusFactor. simpl. by apply forOf_monotone. Qed.

Lemma calculateBusFactor_monotone_witness :
  jsle (Fin 50) (Fin 95) = true
  /\ fst (calculateBusFactor twoContributors (Fin 50))
     <= fst (calculateBusFactor twoContributors (Fin 95)).
Proof.
  split; [reflexivity|].
  exact (calculateBusFactor_monotone twoContributors (Fin 50) (Fin 95) eq_refl).
Defined.

(** C10: the array of the caller holds, after the call, its elements
    reordered descending by contribution count; it is left as it was only
    when it was in that order already. *)
Theorem calculateBusFactor_sorts_argument contributors threshold :
  let after := snd (calculateBusFactor contributors threshold) in
  Permutation after contributors
  /\ StronglySorted desc after
  /\ (after = contributors <-> StronglySorted desc contributors).
Proof.
  simpl. split; [apply sort_perm|]. split; [apply sort_sorted|]. split.
  - intros <-. apply sort_sorted.
  - apply sort_fixpoint.
Qed.

(** The end-to-end scenario of the specification: 90 and 10 commits, the
    default threshold. *)
Example calculateBusFactor_scenario :
  fst (calculateBusFactor helloWorldContributors defaultThreshold) = 1.
Proof. reflexivity. Qed.

(** Above 100 percent the loop runs to the end of the list. *)
Example calculateBusFactor_saturates :
  fst (calculateBusFactor helloWorldContributors (Fin 150)) = 2.
Proof. reflexivity. Qed.

Example calculateBusFactor_reorders :
  snd (calculateBusFactor twoContributors (Fin 50))
  = [mkContributor "a" 90; mkContributor "b" 10].
Proof. reflexivity. Qed.

End BusFactorFacts.

(** ** Net score *)

Module NetScoreFacts.
Import NetScore Scenario.

Lemma convex_term (w x : Q) : (0 <= w -> 0 <= x <= 1 -> 0 <= w * x <= w)%Q.
Proof. intros Hw [H0 H1]. split; nra. Qed.

(** C1: with weights that are a policy (none negative, sum 1) the net
    score of four scores of the interval [0,1] lies in [0,1]. *)
Theorem calculateNetScore_in_unit w busFactor rampUp correctness responsiveness :
  isPolicy w ->
  inUnit busFactor -> inUnit rampUp -> inUnit correctness ->
  inUnit responsiveness ->
  inUnit (calculateNetScore w busFactor rampUp correctness responsiveness).
Proof.
  unfold isPolicy, inUnit, calculateNetScore.
  intros (Hb & Hr & Hc & Hm & Hsum) Ib Ir Ic Im.
  pose proof (convex_term _ _ Hb Ib).
  pose proof (convex_term _ _ Hr Ir).
  pose proof (convex_term _ _ Hc Ic).
  pose proof (convex_term _ _ Hm Im).
  split; lra.
Qed.

Lemma calculateNetScore_in_unit_witness :
  isPolicy evenWeights
  /\ inUnit 1 /\ inUnit (1#2) /\ inUnit 0 /\ inUnit (3#4)
  /\ inUnit (calculateNetScore evenWeights 1 (1#2) 0 (3#4)).
Proof.
  assert (Hw : isPolicy evenWeights).
  { unfold isPolicy, evenWeights. simpl. repeat split; lra. }
  assert (H1 : inUnit 1) by (unfold inUnit; split; lra).
  assert (H2 : inUnit (1#2)) by (unfold inUnit; split; lra).
  assert (H3 : inUnit 0) by (unfold inUnit; split; lra).
  assert (H4 : inUnit (3#4)) by (unfold inUnit; split; lra).
  repeat (split; [assumption|]).
  exact (calculateNetScore_in_unit evenWeights 1 (1#2) 0 (3#4) Hw H1 H2 H3 H4).
Defined.

End NetScoreFacts.

(** ** Strings *)

Module StringFacts.

Lemma app_cons x s t : String x s +:+ t = String x (s +:+ t).
Proof. reflexivity. Qed.

Lemma app_nil_l s : "" +:+ s = s.
Proof. reflexivity. Qed.

Lemma app_nil_r s : s +:+ "" = s.
Proof. induction s as [|x s IH]; [done|]. by rewrite app_cons, IH. Qed.

Lemma app_assoc s t u : (s +:+ t) +:+ u = s +:+ t +:+ u.
Proof. induction s as [|x s IH]; [done|]. by rewrite !app_cons, IH. Qed.


End StringFacts.

(** ** Resolver *)

Module ResolverFacts.
Import Resolver StringFacts.

Lemma run_rest c s : s = run c s +:+ rest c s.
Proof.
  induction s as [|x s IH]; simpl; [done|].
  destruct (Ascii.eqb x c); [done|]. by rewrite app_cons, <- IH.
Qed.

Lemma noSlash_run s : noSlash (run "/" s) = true.
Proof.
  induction s as [|x s IH]; simpl; [done|].
  destruct (Ascii.eqb x "/") eqn:E; simpl; [done|]. by rewrite E.
Qed.

Lemma run_noSlash_app o t :
  noSlash o = true -> run "/" (o +:+ String "/" t) = o.
Proof.
  induction o as [|x o IH]; simpl; [done|].
  rewrite ?app_cons. simpl.
  destruct (Ascii.eqb x "/"); simpl; [done|]. intros H. by rewrite IH.
Qed.

Lemma rest_noSlash_app o t :
  noSlash o = true -> rest "/" (o +:+ String "/" t) = String "/" t.
Proof.
  induction o as [|x o IH]; simpl; [done|].
  rewrite ?app_cons. simpl.
  destruct (Ascii.eqb x "/"); simpl; [done|]. apply IH.
Qed.

Lemma run_noSlash_prefix r t :
  noSlash r = true -> exists u, run "/" (r +:+ t) = r +:+ u.
Proof.
  induction r as [|x r IH]; simpl.
  - intros _. by exists (run "/" t).
  - rewrite ?app_cons. simpl.
    destruct (Ascii.eqb x "/"); simpl; [done|]. intros H.
    destruct (IH H) as [u ->]. by exists u.
Qed.

Lemma truthy_iff s : truthy s = true <-> s <> "".
Proof. by destruct s. Qed.

(** *** The two groups *)

Lemma matchHere_capture c p s :
  matchHere (CaptureNotPlus c :: p) s
  = match greedyPlus (matchHere p) c s with
    | Some (cap, caps) => Some (cap :: caps)
    | None => None
    end.
Proof. reflexivity. Qed.

Lemma matchHere_lit c p x s :
  matchHere (Lit c :: p) (String x s)
  = if Ascii.eqb x c then matchHere p s else None.
Proof. reflexivity. Qed.

(** The last group takes the longest run. *)
Lemma greedyPlus_last c s :
  greedyPlus (matchHere []) c s
  = if truthy (run c s) then Some (run c s, []) else None.
Proof.
  induction s as [|x s IH]; [done|].
  cbn [greedyPlus run].
  destruct (Ascii.eqb x c); [done|]. rewrite IH.
  destruct (run c s); done.
Qed.

(** A group followed by the excluded character takes the longest run as
    well: after a shorter one the next character is not the excluded
    one. *)
Lemma greedyPlus_then_lit c p s :
  greedyPlus (matchHere (Lit c :: p)) c s
  = if truthy (run c s)
    then match matchHere (Lit c :: p) (rest c s) with
         | Some caps => Some (run c s, caps)
         | None => None
         end
    else None.
Proof.
  induction s as [|x s IH]; [done|].
  cbn [greedyPlus run rest].
  destruct (Ascii.eqb x c) eqn:Ex; [done|].
  rewrite IH. cbn [truthy].
  destruct s as [|y s]; [done|].
  cbn [run rest]. destruct (Ascii.eqb y c) eqn:Ey.
  - cbn [truthy]. by destruct (matchHere (Lit c :: p) (String y s)).
  - cbn [truthy].
    destruct (matchHere (Lit c :: p) (rest c s)) as [caps|]; [done|].
    cbn [matchHere]. by rewrite Ey.
Qed.

Lemma matchHere_literal_app pre p s :
  matchHere (literal pre ++ p) (pre +:+ s) = matchHere p s.
Proof.
  induction pre as [|x pre IH]; [done|].
  rewrite app_cons. cbn [literal app matchHere].
  by rewrite Ascii.eqb_refl.
Qed.

Lemma matchHere_literal_inv pre p s caps :
  matchHere (literal pre ++ p) s = Some caps ->
  exists s', s = pre +:+ s' /\ matchHere p s' = Some caps.
Proof.
  revert s. induction pre as [|x pre IH]; intros s.
  - intros H. by exists s.
  - cbn [literal app matchHere]. destruct s as [|y s]; [done|].
    destruct (Ascii.eqb y x) eqn:E; [|done].
    apply Ascii.eqb_eq in E as ->. intros H.
    destruct (IH _ H) as (s' & -> & H'). by exists s'.
Qed.

(** The groups of [/([^/]+)\/([^/]+)/] at the start of [s]. *)
Lemma matchHere_segments s :
  matchHere [CaptureNotPlus "/"; Lit "/"; CaptureNotPlus "/"] s
  = if truthy (run "/" s)
    then match rest "/" s with
         | String _ t =>
             if truthy (run "/" t) then Some [run "/" s; run "/" t]
             else None
         | "" => None
         end
    else None.
Proof.
  rewrite matchHere_capture, greedyPlus_then_lit.
  destruct (truthy (run "/" s)); [|done].
  destruct (rest "/" s) as [|y t] eqn:E; [done|].
  rewrite matchHere_lit.
  assert (Ascii.eqb y "/" = true) as ->.
  { clear -E. induction s as [|x s IH]; [done|]. simpl in E.
    destruct (Ascii.eqb x "/") eqn:Ex; [|auto]. by injection E as -> _. }
  rewrite matchHere_capture, greedyPlus_last.
  by destruct (truthy (run "/" t)).
Qed.

(** A match at the start of [s] exhibits the shape there. *)
Lemma matchHere_githubPattern_sound s caps :
  matchHere githubPattern s = Some caps ->
  exists o r post,
    caps = [o; r] /\ s = githubUrl o r +:+ post
    /\ o <> "" /\ r <> "" /\ noSlash o = true /\ noSlash r = true.
Proof.
  intros H. apply matchHere_literal_inv in H as (s' & -> & H).
  rewrite matchHere_segments in H.
  destruct (truthy (run "/" s')) eqn:Eo; [|done].
  destruct (rest "/" s') as [|y t] eqn:Er; [done|].
  destruct (truthy (run "/" t)) eqn:Et; [|done].
  injection H as <-.
  assert (y = "/"%char) as ->.
  { clear -Er. induction s' as [|x s' IH]; [done|]. simpl in Er.
    destruct (Ascii.eqb x "/") eqn:Ex; [|auto].
    apply Ascii.eqb_eq in Ex. by injection Er as <- _. }
  exists (run "/" s'), (run "/" t), (rest "/" t).
  split; [done|]. split.
  - unfold githubUrl. rewrite !app_assoc. f_equal.
    rewrite (run_rest "/" s') at 1. f_equal. rewrite Er.
    change (String "/" t = String "/" (run "/" t +:+ rest "/" t)).
    f_equal. apply run_rest.
  - by rewrite <- !truthy_iff, !noSlash_run.
Qed.

(** Where the shape is, there is a match. *)
Lemma matchHere_githubPattern_complete o r post :
  o <> "" -> noSlash o = true -> r <> "" -> noSlash r = true ->
  exists u, matchHere githubPattern (githubUrl o r +:+ post)
            = Some [o; r +:+ u].
Proof.
  intros Ho Hso Hr Hsr. unfold githubUrl, githubPattern.
  rewrite !app_assoc, matchHere_literal_app, matchHere_segments.
  change ("/" +:+ r +:+ post) with (String "/" (r +:+ post)).
  rewrite run_noSlash_app, rest_noSlash_app by done.
  apply truthy_iff in Ho as ->.
  destruct (run_noSlash_prefix r post Hsr) as [u ->].
  exists u. destruct r; done.
Qed.

Lemma jsMatch_sound s caps :
  jsMatch githubPattern s = Some caps ->
  exists pre o r post,
    caps = [o; r] /\ s = pre +:+ githubUrl o r +:+ post
    /\ o <> "" /\ r <> "" /\ noSlash o = true /\ noSlash r = true.
Proof.
  induction s as [|x s IH].
  - cbn [jsMatch]. destruct (matchHere githubPattern "") eqn:E; [|done].
    intros [= <-]. apply matchHere_githubPattern_sound in E.
    destruct E as (o & r & post & E). by exists "", o, r, post.
  - cbn [jsMatch]. destruct (matchHere githubPattern (String x s)) eqn:E.
    + intros [= <-]. apply matchHere_githubPattern_sound in E.
      destruct E as (o & r & post & E). by exists "", o, r, post.
    + intros H. destruct (IH H) as (pre & o & r & post & ? & -> & ?).
      by exists (String x pre), o, r, post.
Qed.

Lemma jsMatch_complete pre o r post :
  o <> "" -> noSlash o = true -> r <> "" -> noSlash r = true ->
  exists o' r',
    jsMatch githubPattern (pre +:+ githubUrl o r +:+ post) = Some [o'; r']
    /\ o' <> "" /\ r' <> "".
Proof.
  intros Ho Hso Hr Hsr.
  destruct (matchHere_githubPattern_complete o r post Ho Hso Hr Hsr)
    as [u Hu].
  induction pre as [|x pre IH].
  - exists o, (r +:+ u). rewrite app_nil_l.
    destruct (githubUrl o r +:+ post); cbn [jsMatch]; rewrite Hu;
      (split; [done|]); (split; [done|]); by destruct r.
  - rewrite app_cons. cbn [jsMatch].
    destruct (matchHere githubPattern (String x _)) as [caps|] eqn:E;
      [|exact IH].
    apply matchHere_githubPattern_sound in E
      as (o' & r' & ? & -> & _ & ? & ? & _).
    by exists o', r'.
Qed.

Lemma jsMatch_here p s caps :
  matchHere p s = Some caps -> jsMatch p s = Some caps.
Proof. intros H. destruct s; cbn [jsMatch]; by rewrite H. Qed.

Lemma run_noSlash r : noSlash r = true -> run "/" r = r.
Proof.
  induction r as [|x r IH]; simpl; [done|].
  destruct (Ascii.eqb x "/"); simpl; [done|]. intros H. by rewrite IH.
Qed.

(** *** The claims *)

(** C3, as amended: a string of the exact shape with [owner] and [repo]
    not empty resolves to that owner and repo, and a string resolves to
    [null] exactly when the shape occurs nowhere in it. *)
Theorem parseGithubUrl_shape :
  (forall o r,
     o <> "" -> r <> "" -> noSlash o = true -> noSlash r = true ->
     parseGithubUrl (githubUrl o r) = Some {| owner := o; repo := r |})
  /\ (forall s, parseGithubUrl s = None <-> ~ occursIn s).
Proof.
  split.
  - intros o r Ho Hr Hso Hsr. unfold parseGithubUrl.
    rewrite (jsMatch_here _ _ [o; r]).
    + apply truthy_iff in Ho as ->. by apply truthy_iff in Hr as ->.
    + unfold githubUrl, githubPattern.
      rewrite matchHere_literal_app, matchHere_segments.
      change ("/" +:+ r) with (String "/" r).
      rewrite run_noSlash_app, rest_noSlash_app, run_noSlash by done.
      apply truthy_iff in Ho as ->. by apply truthy_iff in Hr as ->.
  - intros s. unfold parseGithubUrl. split.
    + intros H (pre & o & r & post & -> & Ho & Hr & Hso & Hsr).
      destruct (jsMatch_complete pre o r post Ho Hso Hr Hsr)
        as (o' & r' & E & Ho' & Hr').
      rewrite E in H.
      apply truthy_iff in Ho'. apply truthy_iff in Hr'.
      by rewrite Ho', Hr' in H.
    + intros H. destruct (jsMatch githubPattern s) as [caps|] eqn:E; [|done].
      exfalso. apply H.
      apply jsMatch_sound in E as (pre & o & r & post & _ & E).
      by exists pre, o, r, post.
Qed.

Lemma parseGithubUrl_shape_witness :
  parseGithubUrl (githubUrl "octocat" "Hello-World")
  = Some {| owner := "octocat"; repo := "Hello-World" |}
  /\ ~ occursIn "not-a-url".
Proof.
  split.
  - apply (proj1 parseGithubUrl_shape "octocat" "Hello-World"); done.
  - apply (proj1 (proj2 parseGithubUrl_shape "not-a-url")). reflexivity.
Defined.

(** C3, as stated, fails on a string that continues after the
    repository: it lacks the exact shape and still resolves. *)
Lemma parseGithubUrl_longer_path :
  ~ exactShape "https://github.com/octocat/Hello-World/issues"
  /\ parseGithubUrl "https://github.com/octocat/Hello-World/issues"
     = Some {| owner := "octocat"; repo := "Hello-World" |}.
Proof.
  split; [|reflexivity].
  intros (o & r & Hso & Hsr & E). unfold githubUrl in E.
  change "https://github.com/octocat/Hello-World/issues"
    with ("https://github.com/" +:+ "octocat/Hello-World/issues") in E.
  apply (inj (String.app _)) in E.
  assert (Hrest := f_equal (rest "/") E).
  change ("/" +:+ r) with (String "/" r) in Hrest.
  rewrite rest_noSlash_app in Hrest by done.
  injection Hrest as <-. done.
Qed.

(** A segment that is empty does not resolve. *)
Example parseGithubUrl_empty_repo :
  parseGithubUrl (githubUrl "octocat" "") = None.
Proof. reflexivity. Qed.

(** The match is the leftmost one, wherever it starts. *)
Example parseGithubUrl_embedded :
  parseGithubUrl "see https://github.com/octocat/Hello-World"
  = Some {| owner := "octocat"; repo := "Hello-World" |}.
Proof. reflexivity. Qed.

End ResolverFacts.


(** ** Orchestrator *)

Module OrchestratorFacts.
Import JsNumber BusFactor Resolver NetScore Runtime Orchestrator.

Section Generic.
Context {Ext : Type} `{!Imports Ext}.

(** *** Sequencing *)

Lemma bind_returned {A B} (m : Async Ext A) (k : A -> Async Ext B) w a w' :
  m w = (Returned a, w') -> bind m k w = k a w'.
Proof. intros H. unfold bind. by rewrite H. Qed.

Lemma bind_thrown {A B} (m : Async Ext A) (k : A -> Async Ext B) w e w' :
  m w = (Thrown e, w') -> bind m k w = (Thrown e, w').
Proof. intros H. unfold bind. by rewrite H. Qed.

Lemma tryCatch_returned {A} (m : Async Ext A) handler w a w' :
  m w = (Returned a, w') -> tryCatch m handler w = (Returned a, w').
Proof. intros H. unfold tryCatch. by rewrite H. Qed.

Lemma tryCatch_thrown {A} (m : Async Ext A) handler w e w' :
  m w = (Thrown e, w') -> tryCatch m handler w = handler e w'.
Proof. intros H. unfold tryCatch. by rewrite H. Qed.

(** *** What a computation leaves alone *)

Lemma quiet_ret {A} (a : A) : quiet Ext (ret a).
Proof. by intros w. Qed.

Lemma quiet_throw {A} e : quiet Ext (throw (A := A) e).
Proof. by intros w. Qed.

Lemma quiet_await {A} (c : Remote Ext A) : quiet Ext (await c).
Proof. intros w. unfold await. by destruct (c (ext w)). Qed.

Lemma quiet_consoleError line : quiet Ext (consoleError line).
Proof. by intros w. Qed.

Lemma quiet_bind {A B} (m : Async Ext A) (k : A -> Async Ext B) :
  quiet Ext m -> (forall a, quiet Ext (k a)) -> quiet Ext (bind m k).
Proof.
  intros Hm Hk w. unfold bind. specialize (Hm w).
  destruct (m w) as [[a|e] w']; simpl in Hm; [|done].
  destruct (Hk a w') as (? & ? & ?). destruct Hm as (? & ? & ?).
  repeat split; congruence.
Qed.

Lemma quiet_tryCatch {A} (m : Async Ext A) handler :
  quiet Ext m -> (forall e, quiet Ext (handler e)) -> quiet Ext (tryCatch m handler).
Proof.
  intros Hm Hh w. unfold tryCatch. specialize (Hm w).
  destruct (m w) as [[a|e] w']; simpl in Hm; [done|].
  destruct (Hh e w') as (? & ? & ?). destruct Hm as (? & ? & ?).
  repeat split; congruence.
Qed.

Lemma quiet_functionTimer {A} (work : Async Ext A) :
  quiet Ext work -> quiet Ext (functionTimer work).
Proof.
  intros Hw. unfold functionTimer.
  repeat (apply quiet_bind; [|intros ?]);
    auto using quiet_await, quiet_ret.
Qed.

Lemma quiet_fetchRepoLicense o r : quiet Ext (fetchRepoLicense o r).
Proof.
  unfold fetchRepoLicense. apply quiet_tryCatch.
  - apply quiet_bind; [apply quiet_await|intros ?; apply quiet_ret].
  - intros e.
    apply quiet_bind; [apply quiet_consoleError|intros ?; apply quiet_throw].
Qed.

Lemma quiet_tryBlock url o r : quiet Ext (tryBlock url o r).
Proof.
  unfold tryBlock.
  repeat (apply quiet_bind; [|intros ?]);
    auto using quiet_await, quiet_ret, quiet_functionTimer,
               quiet_fetchRepoLicense.
Qed.

Lemma quiet_calculateMetricsForRepo url : quiet Ext (calculateMetricsForRepo url).
Proof.
  unfold calculateMetricsForRepo.
  destruct (parseGithubUrl _); [|apply quiet_ret].
  apply quiet_tryCatch; [apply quiet_tryBlock|intros ?; apply quiet_ret].
Qed.

(** *** One repository *)

Lemma calculateMetricsForRepo_returns url w :
  exists r w', calculateMetricsForRepo url w = (Returned r, w').
Proof.
  unfold calculateMetricsForRepo.
  destruct (parseGithubUrl _) as [info|]; [|by eexists _, _].
  unfold tryCatch. destruct (tryBlock _ _ _ w) as [[r|e] w'];
    by eexists _, _.
Qed.

(** The timer lets what the timed computation throws through. *)
Lemma functionTimer_propagates {A} (work : Async Ext A) w e w' :
  work (snd (await (fun x => let '(t, x') := now x in (Returned t, x')) w))
  = (Thrown e, w') ->
  functionTimer work w = (Thrown e, w').
Proof.
  intros H. unfold functionTimer, bind at 1, await at 1.
  unfold await in H. destruct (now (ext w)) as [t x]. simpl in *.
  by apply bind_thrown.
Qed.

(** A failed contributors request makes the [try] block throw. *)
Lemma tryBlock_fetchContributors_throws url o r w e x :
  fetchContributors o r (ext w) = (Thrown e, x) ->
  tryBlock url o r w
  = (Thrown e, mkWorld x (files w) (pool w) (stdout w) (stderr w)).
Proof.
  intros H. unfold tryBlock. apply bind_thrown.
  unfold await. by rewrite H.
Qed.

(** *** The calls of the pipeline *)

Lemma callsInTurn_app (cs1 cs2 : list (Remote Ext unit)) x :
  callsInTurn (cs1 ++ cs2) x
  = match callsInTurn cs1 x return Outcome unit * Ext with
    | (Returned _, x') => callsInTurn cs2 x'
    | (Thrown e, x') => (Thrown e, x')
    end.
Proof.
  revert x. induction cs1 as [|c cs1 IH]; intros x; [done|].
  change ((c :: cs1) ++ cs2) with (c :: (cs1 ++ cs2)). cbn [callsInTurn].
  destruct (c x) as [[[]|e] x']; [apply IH|done].
Qed.

Lemma makes_ret {A} (a : A) : makes Ext (ret a) [].
Proof. intros w. by eexists _, _. Qed.

Lemma makes_await {A} (call : Remote Ext A) : makes Ext (await call) [forget call].
Proof.
  intros w. unfold await, forget. cbn [callsInTurn].
  destruct (call (ext w)) as [[a|e] x]; [by eexists _, _|by eexists].
Qed.

Lemma makes_now :
  makes Ext (await (fun x => let '(t, x') := now x in (Returned t, x'))) [tick].
Proof.
  intros w. unfold await, tick. cbn [callsInTurn].
  destruct (now (ext w)) as [t x]. by eexists _, _.
Qed.

Lemma makes_bind {A B} (m : Async Ext A) (k : A -> Async Ext B) cs1 cs2 cs :
  makes Ext m cs1 -> (forall a, makes Ext (k a) cs2) -> cs = cs1 ++ cs2 ->
  makes Ext (bind m k) cs.
Proof.
  intros Hm Hk -> w. rewrite callsInTurn_app. specialize (Hm w).
  destruct (callsInTurn cs1 (ext w)) as [[[]|e] x].
  - destruct Hm as (a & w1 & Hm & <-). rewrite (bind_returned _ _ _ _ _ Hm).
    apply Hk.
  - destruct Hm as (w1 & Hm & <-). rewrite (bind_thrown _ _ _ _ _ Hm).
    by eexists.
Qed.

Lemma makes_functionTimer {A} (work : Async Ext A) cs :
  makes Ext work cs -> makes Ext (functionTimer work) (tick :: cs ++ [tick]).
Proof.
  intros Hw. unfold functionTimer.
  eapply makes_bind; [apply makes_now| |reflexivity].
  intros start. eapply makes_bind; [exact Hw| |reflexivity].
  intros out. eapply makes_bind; [apply makes_now| |symmetry; apply app_nil_r].
  intros stop. apply makes_ret.
Qed.

(** [fetchRepoLicense] makes the license request; its handler logs and
    throws again what the request has thrown. *)
Lemma makes_fetchRepoLicense o r :
  makes Ext (fetchRepoLicense o r)
    [forget (axiosGet
               (GITHUB_API_BASE_URL +:+ "/repos/" +:+ o +:+ "/" +:+ r
                  +:+ "/license")
               ("token " +:+ GITHUB_TOKEN))].
Proof.
  intros w. unfold fetchRepoLicense, tryCatch, bind, await, forget.
  cbn [callsInTurn].
  destruct (axiosGet _ _ (ext w)) as [[a|e] x]; [by eexists _, _|by eexists].
Qed.

(** The [try] block makes the calls of the pipeline one after the
    other: it throws what the first call that throws has thrown, without
    making the calls after it, and it returns when every call returns. *)
Lemma makes_tryBlock url o r : makes Ext (tryBlock url o r) (remoteCalls o r).
Proof.
  unfold tryBlock.
  eapply makes_bind; [apply makes_await| |].
  { intros contributors.
    eapply makes_bind;
      [apply makes_functionTimer, makes_ret| |reflexivity].
    intros busFactor.
    eapply makes_bind;
      [apply makes_functionTimer, makes_await| |reflexivity].
    intros rampUpScore.
    eapply makes_bind;
      [apply makes_functionTimer, makes_fetchRepoLicense| |reflexivity].
    intros retrievedLicense.
    eapply makes_bind;
      [apply makes_functionTimer, makes_await| |reflexivity].
    intros correctness.
    eapply makes_bind;
      [apply makes_functionTimer, makes_await| |reflexivity].
    intros maintainResponsiveness.
    eapply makes_bind;
      [apply makes_functionTimer, makes_ret| |symmetry; apply app_nil_r].
    intros netScore. apply makes_ret. }
  reflexivity.
Qed.

(** What the [try] block returns is a report. *)
Lemma tryBlock_returned url o r w text w' :
  tryBlock url o r w = (Returned text, w') ->
  exists netScore rampUpScore correctness busFactor responsiveness license,
    text = report url netScore rampUpScore correctness busFactor
                  responsiveness license.
Proof.
  unfold tryBlock, bind at 1.
  destruct (await _ w) as [[contributors|?] w1]; [|done].
  unfold bind at 1.
  destruct (functionTimer _ w1) as [[busFactor|?] w2]; [|done].
  unfold bind at 1.
  destruct (functionTimer _ w2) as [[rampUpScore|?] w3]; [|done].
  unfold bind at 1.
  destruct (functionTimer _ w3) as [[license|?] w4]; [|done].
  unfold bind at 1.
  destruct (functionTimer _ w4) as [[correctness|?] w5]; [|done].
  unfold bind at 1.
  destruct (functionTimer _ w5) as [[responsiveness|?] w6]; [|done].
  unfold bind at 1.
  destruct (functionTimer _ w6) as [[netScore|?] w7]; [|done].
  intros [= <- _]. by eexists _, _, _, _, _, _.
Qed.

(** *** The loop *)

Lemma forOfUrls_cons out url rest w r w1 :
  calculateMetricsForRepo url w = (Returned r, w1) ->
  forOfUrls out (url :: rest) w = forOfUrls out rest (written out r w1).
Proof.
  intros H. cbn [forOfUrls]. rewrite (bind_returned _ _ _ _ _ H).
  unfold written, bind, consoleLog, appendFileSync. simpl.
  by destruct (poolStep _ _).
Qed.

Lemma results_cons out url rest w r w1 :
  calculateMetricsForRepo url w = (Returned r, w1) ->
  results out (url :: rest) w = r :: results out rest (written out r w1).
Proof. intros H. cbn [results]. by rewrite H. Qed.

Lemma forOfUrls_returns out urls :
  forall w, exists w', forOfUrls out urls w = (Returned tt, w').
Proof.
  induction urls as [|url rest IH]; intros w; [by eexists|].
  destruct (calculateMetricsForRepo_returns url w) as (r & w1 & H).
  rewrite (forOfUrls_cons _ _ _ _ _ _ H). apply IH.
Qed.

Lemma forOfUrls_app out done todo :
  forall w,
    forOfUrls out (done ++ todo) w
    = forOfUrls out todo (snd (forOfUrls out done w)).
Proof.
  induction done as [|url done IH]; intros w; [done|].
  destruct (calculateMetricsForRepo_returns url w) as (r & w1 & H).
  cbn [app]. rewrite !(forOfUrls_cons _ _ _ _ _ _ H). apply IH.
Qed.

Lemma results_app out done todo :
  forall w,
    results out (done ++ todo) w
    = results out done w ++ results out todo (snd (forOfUrls out done w)).
Proof.
  induction done as [|url done IH]; intros w; [done|].
  destruct (calculateMetricsForRepo_returns url w) as (r & w1 & H).
  cbn [app]. rewrite !(results_cons _ _ _ _ _ _ H).
  rewrite (forOfUrls_cons _ _ _ _ _ _ H), IH. done.
Qed.

Lemma results_length out urls :
  forall w, length (results out urls w) = length urls.
Proof.
  induction urls as [|url rest IH]; intros w; [done|].
  destruct (calculateMetricsForRepo_returns url w) as (r & w1 & H).
  rewrite (results_cons _ _ _ _ _ _ H). simpl. by rewrite IH.
Qed.

(** *** The output *)

Lemma written_stdout out r (w : World Ext) : stdout (written out r w) = stdout w ++ [r].
Proof.
  unfold written, appendFileSync, consoleLog. simpl.
  by destruct (poolStep _ _).
Qed.

(** No request is pending: the record goes to the end of the file. *)
Lemma written_settled out r (w : World Ext) :
  pool w = [] ->
  pool (written out r w) = []
  /\ contentOf (files (written out r w)) out
     = contentOf (files w) out +:+ r +:+ nl.
Proof.
  intros H. unfold written, appendFileSync, consoleLog. simpl.
  rewrite H. simpl. unfold contentOf. by rewrite lookup_insert_eq.
Qed.

(** The request that empties [out] takes effect before this write. *)
Lemma written_landing out r (w : World Ext) :
  pool w = [(0, (out, ""))] ->
  pool (written out r w) = []
  /\ contentOf (files (written out r w)) out = r +:+ nl.
Proof.
  intros H. unfold written, appendFileSync, consoleLog. simpl.
  rewrite H. simpl. unfold contentOf. by rewrite !lookup_insert_eq.
Qed.

(** This write overtakes the request that empties [out]. *)
Lemma written_overtaking out r (w : World Ext) k :
  pool w = [(S k, (out, ""))] ->
  pool (written out r w) = [(k, (out, ""))]
  /\ contentOf (files (written out r w)) out
     = contentOf (files w) out +:+ r +:+ nl.
Proof.
  intros H. unfold written, appendFileSync, consoleLog. simpl.
  rewrite H. simpl. unfold contentOf. by rewrite lookup_insert_eq.
Qed.

Lemma forOfUrls_stdout out urls :
  forall w,
    stdout (snd (forOfUrls out urls w)) = stdout w ++ results out urls w.
Proof.
  induction urls as [|url rest IH]; intros w.
  - simpl. by rewrite app_nil_r.
  - destruct (calculateMetricsForRepo_returns url w) as (r & w1 & H).
    rewrite (forOfUrls_cons _ _ _ _ _ _ H), (results_cons _ _ _ _ _ _ H).
    rewrite IH, written_stdout.
    destruct (quiet_calculateMetricsForRepo url w) as (_ & _ & Hout).
    rewrite H in Hout. simpl in Hout. rewrite Hout.
    by rewrite <- app_assoc.
Qed.

Lemma forOfUrls_settled out urls :
  forall w,
    pool w = [] ->
    pool (snd (forOfUrls out urls w)) = []
    /\ contentOf (files (snd (forOfUrls out urls w))) out
       = contentOf (files w) out +:+ lines (results out urls w).
Proof.
  induction urls as [|url rest IH]; intros w Hw.
  - simpl. by rewrite StringFacts.app_nil_r.
  - destruct (calculateMetricsForRepo_returns url w) as (r & w1 & H).
    rewrite (forOfUrls_cons _ _ _ _ _ _ H), (results_cons _ _ _ _ _ _ H).
    destruct (quiet_calculateMetricsForRepo url w) as (Hf & Hp & _).
    rewrite H in Hf, Hp. simpl in Hf, Hp.
    destruct (written_settled out r w1) as (Hp' & Hc'); [congruence|].
    destruct (IH _ Hp') as (Hp'' & Hc''). split; [done|].
    rewrite Hc'', Hc', Hf. cbn [lines].
    by rewrite !StringFacts.app_assoc.
Qed.

Lemma forOfUrls_pending out urls :
  forall w k,
    pool w = [(k, (out, ""))] ->
    let w' := snd (forOfUrls out urls w) in
    (length urls <= k ->
       pool w' = [(k - length urls, (out, ""))]
       /\ contentOf (files w') out
          = contentOf (files w) out +:+ lines (results out urls w))
    /\ (k < length urls ->
          pool w' = []
          /\ contentOf (files w') out
             = lines (drop k (results out urls w))).
Proof.
  induction urls as [|url rest IH]; intros w k Hw.
  - simpl. split; [|lia]. intros _.
    by rewrite Nat.sub_0_r, StringFacts.app_nil_r.
  - destruct (calculateMetricsForRepo_returns url w) as (r & w1 & H).
    cbn zeta.
    rewrite (forOfUrls_cons _ _ _ _ _ _ H), (results_cons _ _ _ _ _ _ H).
    destruct (quiet_calculateMetricsForRepo url w) as (Hf & Hp & _).
    rewrite H in Hf, Hp. simpl in Hf, Hp. rewrite Hw in Hp.
    destruct k as [|k].
    + split; [simpl; lia|]. intros _.
      destruct (written_landing out r w1 Hp) as (Hp' & Hc').
      destruct (forOfUrls_settled out rest _ Hp') as (Hp'' & Hc'').
      split; [done|]. rewrite Hc'', Hc', drop_0. cbn [lines].
      by rewrite StringFacts.app_assoc.
    + destruct (written_overtaking out r w1 k Hp) as (Hp' & Hc').
      destruct (IH _ _ Hp') as (Hle & Hlt). cbn [length]. split.
      * intros Hn. destruct Hle as (Hp'' & Hc''); [lia|].
        split; [by rewrite Hp''|].
        rewrite Hc'', Hc', Hf. cbn [lines].
        by rewrite !StringFacts.app_assoc.
      * intros Hn. destruct Hlt as (Hp'' & Hc''); [lia|]. done.
Qed.

Lemma parseUrlFile_start filepath text w :
  pool w = [] -> files w !! filepath = Some text ->
  parseUrlFile filepath w
  = forOfUrls (filepath +:+ ".NDJSON")
              (List.filter truthy (split LF text)) (loopStart filepath w).
Proof.
  intros Hp Hf. unfold parseUrlFile, bind, readFileSync, writeFile.
  rewrite Hp. simpl. by rewrite Hf.
Qed.

(** Without the input file [parseUrlFile] throws before any
    repository is processed. *)
Lemma parseUrlFile_no_input filepath w :
  pool w = [] -> files w !! filepath = None ->
  exists e w',
    parseUrlFile filepath w = (Thrown e, w') /\ stdout w' = stdout w.
Proof.
  intros Hp Hf. unfold parseUrlFile, bind, readFileSync.
  rewrite Hp. simpl. rewrite Hf. by eexists _, _.
Qed.

(** *** The claims *)

(** C7: when the resolver does not match the normalized URL,
    [calculateMetricsForRepo] returns, without throwing and without any
    effect, a string that contains "Invalid URL"; the loop writes that
    line, goes on with the URLs that remain, and returns. *)
Theorem invalid_url_reported url rest out (w : World Ext) :
  parseGithubUrl (getGithubLink url) = None ->
  let line := "Invalid URL: " +:+ getGithubLink url in
  calculateMetricsForRepo url w = (Returned line, w)
  /\ (exists pre post, line = pre +:+ "Invalid URL" +:+ post)
  /\ forOfUrls out (url :: rest) w
     = forOfUrls out rest (written out line w)
  /\ exists w', forOfUrls out (url :: rest) w = (Returned tt, w').
Proof.
  intros Hparse line.
  assert (H : calculateMetricsForRepo url w = (Returned line, w)).
  { unfold calculateMetricsForRepo. by rewrite Hparse. }
  split; [done|]. split; [by exists "", (": " +:+ getGithubLink url)|].
  split; [by apply forOfUrls_cons|apply forOfUrls_returns].
Qed.

(** C6: when a fetch or a calculator of the pipeline of a repository
    throws [e], whichever of the five it is and whatever the calls before
    it returned, [calculateMetricsForRepo] returns the error string that
    names the owner and the repository and ends with [e]: it is not a
    report, and the calls after the failed one are not made.  Until then
    nothing has been written to a file or printed on the standard
    output; the loop writes that one line, goes on with the URLs that
    remain, and returns. *)
Theorem pipeline_failure_reported url info rest out (w : World Ext) e x :
  parseGithubUrl (getGithubLink url) = Some info ->
  callsInTurn (remoteCalls (owner info) (repo info)) (ext w)
  = (Thrown e, x) ->
  let line := "Error calculating Metrics for " +:+ owner info +:+ "/"
                +:+ repo info +:+ ": " +:+ e in
  exists w1,
    calculateMetricsForRepo url w = (Returned line, w1)
    /\ ext w1 = x
    /\ (files w1 = files w /\ pool w1 = pool w /\ stdout w1 = stdout w)
    /\ forOfUrls out (url :: rest) w
       = forOfUrls out rest (written out line w1)
    /\ exists w', forOfUrls out (url :: rest) w = (Returned tt, w').
Proof.
  intros Hparse Hcalls line.
  pose proof (makes_tryBlock url (owner info) (repo info) w) as Hthrow.
  rewrite Hcalls in Hthrow. destruct Hthrow as (w1 & Hthrow & Hx).
  exists w1.
  assert (H : calculateMetricsForRepo url w = (Returned line, w1)).
  { unfold calculateMetricsForRepo. rewrite Hparse.
    by rewrite (tryCatch_thrown _ _ _ _ _ Hthrow). }
  split; [done|]. split; [done|]. split.
  - pose proof (quiet_tryBlock url (owner info) (repo info) w) as Hq.
    by rewrite Hthrow in Hq.
  - split; [by apply forOfUrls_cons|apply forOfUrls_returns].
Qed.

(** [parseUrlFile] returns after it has processed the URLs one after
    the other, and when the processing of a URL begins the results of all
    the URLs before it have been printed and appended.  The standard
    output holds the results in the order of the URLs.  The output file
    holds them from the moment only at which the request that empties it
    has taken effect: the results appended before that moment, [delay]
    of them at most, are not in the file in the end. *)
Lemma parseUrlFile_sequential filepath text (w : World Ext) :
  pool w = [] -> files w !! filepath = Some text ->
  let out := filepath +:+ ".NDJSON" in
  let urls := List.filter truthy (split LF text) in
  let w0 := loopStart filepath w in
  let delay := threadPoolDelay (ext w) in
  let rs := results out urls w0 in
  (exists w',
     parseUrlFile filepath w = (Returned tt, w')
     /\ stdout w' = stdout w ++ rs
     /\ contentOf (drained w') out = lines (drop delay rs))
  /\ length rs = length urls
  /\ (forall done url todo,
        urls = done ++ url :: todo ->
        let wi := snd (forOfUrls out done w0) in
        let earlier := results out done w0 in
        exists r w1,
          calculateMetricsForRepo url wi = (Returned r, w1)
          /\ rs = earlier ++ r :: results out todo (written out r w1)
          /\ stdout wi = stdout w ++ earlier
          /\ (length done <= delay ->
                contentOf (files wi) out
                = contentOf (files w) out +:+ lines earlier)
          /\ (delay < length done ->
                contentOf (files wi) out = lines (drop delay earlier))).
Proof.
  intros Hp Hf out urls w0 delay rs.
  assert (Hw0 : pool w0 = [(delay, (out, ""))]) by done.
  split; [|split].
  - destruct (forOfUrls_returns out urls w0) as [w' Hw'].
    exists w'. rewrite (parseUrlFile_start _ _ _ Hp Hf).
    split; [done|].
    pose proof (forOfUrls_stdout out urls w0) as Hout.
    destruct (forOfUrls_pending out urls w0 delay Hw0) as (Hle & Hlt).
    fold urls out w0 in Hw'. rewrite Hw' in Hout, Hle, Hlt.
    simpl in Hout, Hle, Hlt. split; [done|].
    unfold drained.
    destruct (decide (length urls <= delay)) as [Hn|Hn].
    + destruct (Hle Hn) as (-> & _). simpl.
      unfold contentOf. rewrite lookup_insert_eq. simpl.
      rewrite drop_ge; [done|]. unfold rs. by rewrite results_length.
    + destruct Hlt as (-> & Hc); [lia|]. done.
  - apply results_length.
  - intros done url todo Hsplit wi earlier.
    destruct (calculateMetricsForRepo_returns url wi) as (r & w1 & H).
    exists r, w1. split; [done|]. split.
    + unfold rs. rewrite Hsplit, results_app. f_equal.
      by apply results_cons.
    + split; [apply forOfUrls_stdout|].
      destruct (forOfUrls_pending out done w0 delay Hw0) as (Hle & Hlt).
      split; intros Hn; [by destruct (Hle Hn)|by destruct (Hlt Hn)].
Qed.




(** C9 does not hold of the code: the record of a repository whose
    pipeline succeeds is the report, which starts with a line that
    holds the opening brace alone and so is not one line of JSON. *)
Theorem record_spans_lines url info (w w1 : World Ext) text :
  parseGithubUrl (getGithubLink url) = Some info ->
  tryBlock url (owner info) (repo info) w = (Returned text, w1) ->
  calculateMetricsForRepo url w = (Returned text, w1)
  /\ exists body, text = "{" +:+ nl +:+ body.
Proof.
  intros Hparse Hret. split.
  - unfold calculateMetricsForRepo. rewrite Hparse.
    by apply tryCatch_returned.
  - apply tryBlock_returned in Hret
      as (n & ru & c & b & m & l & ->).
    unfold report. by eexists.
Qed.

End Generic.

(** *** The end-to-end scenarios, on the test double *)

Import Scenario.

Lemma invalid_url_reported_witness :
  parseGithubUrl (getGithubLink "not-a-url") = None
  /\ calculateMetricsForRepo "not-a-url" batchWorld
     = (Returned ("Invalid URL: " +:+ getGithubLink "not-a-url"), batchWorld).
Proof.
  assert (H1 : parseGithubUrl (getGithubLink "not-a-url") = None)
    by (vm_compute; reflexivity).
  split; [exact H1|].
  exact (proj1 (invalid_url_reported "not-a-url" [] "urls.txt.NDJSON"
                  batchWorld H1)).
Defined.

Lemma pipeline_failure_reported_witness :
  parseGithubUrl (getGithubLink (Imports := correctnessDown) helloWorldUrl)
  = Some helloWorldInfo
  /\ callsInTurn
       (remoteCalls (Imports0 := correctnessDown)
          (owner helloWorldInfo) (repo helloWorldInfo))
       (ext batchWorld)
     = (Thrown timeout5000, 4)
  /\ exists w1,
       calculateMetricsForRepo (Imports0 := correctnessDown)
         helloWorldUrl batchWorld
       = (Returned
            ("Error calculating Metrics for " +:+ owner helloWorldInfo
               +:+ "/" +:+ repo helloWorldInfo +:+ ": " +:+ timeout5000),
          w1)
       /\ ext w1 = 4.
Proof.
  assert (H1 : parseGithubUrl
                 (getGithubLink (Imports := correctnessDown) helloWorldUrl)
               = Some helloWorldInfo)
    by (vm_compute; reflexivity).
  assert (H2 : callsInTurn
                 (remoteCalls (Imports0 := correctnessDown)
                    (owner helloWorldInfo) (repo helloWorldInfo))
                 (ext batchWorld)
               = (Thrown timeout5000, 4))
    by (vm_compute; reflexivity).
  split; [exact H1|]. split; [exact H2|].
  destruct (pipeline_failure_reported (Imports0 := correctnessDown)
              helloWorldUrl helloWorldInfo [] "urls.txt.NDJSON" batchWorld
              timeout5000 4 H1 H2)
    as (w1 & Hline & Hx & _).
  exists w1. split; [exact Hline|exact Hx].
Defined.

(** The scenario of the specification, a contributors request that is
    answered with status 500: the first call of the pipeline throws and
    the result is the error line of the repository. *)
Example contributors_failure :
  callsInTurn (remoteCalls (owner brokenInfo) (repo brokenInfo))
              (ext batchWorld)
  = (Thrown status500, 1)
  /\ calculateMetricsForRepo brokenUrl batchWorld
     = (Returned ("Error calculating Metrics for octocat/broken: "
                    +:+ status500),
        brokenWorld).
Proof. by vm_compute. Qed.

(** A correctness calculator that throws, after the contributors, the
    ramp-up and the license have been obtained: the result is the error
    line, and the responsiveness calculator has not been called (the
    state of the outside world counts four calls). *)
Example correctness_failure :
  calculateMetricsForRepo (Imports0 := correctnessDown)
    helloWorldUrl batchWorld
  = (Returned ("Error calculating Metrics for octocat/Hello-World: "
                 +:+ timeout5000),
     mkWorld 4 (files batchWorld) [] [] []).
Proof. by vm_compute. Qed.

Lemma parseUrlFile_sequential_witness :
  pool batchWorld = []
  /\ files batchWorld !! "urls.txt" = Some batchText
  /\ exists w',
       parseUrlFile "urls.txt" batchWorld = (Returned tt, w')
       /\ stdout w'
          = stdout batchWorld
              ++ results ("urls.txt" +:+ ".NDJSON")
                   (List.filter truthy (split LF batchText))
                   (loopStart "urls.txt" batchWorld)
       /\ contentOf (drained w') ("urls.txt" +:+ ".NDJSON")
          = lines (drop (threadPoolDelay (ext batchWorld))
              (results ("urls.txt" +:+ ".NDJSON")
                 (List.filter truthy (split LF batchText))
                 (loopStart "urls.txt" batchWorld))).
Proof.
  assert (H1 : pool batchWorld = []) by reflexivity.
  assert (H2 : files batchWorld !! "urls.txt" = Some batchText)
    by (vm_compute; reflexivity).
  split; [exact H1|]. split; [exact H2|].
  exact (proj1 (parseUrlFile_sequential "urls.txt" batchText batchWorld
                  H1 H2)).
Defined.


(** That run: two lines that are no repository URLs, and a request that
    two file operations overtake.  Both results are printed, both are
    appended, each before the next URL is processed, and the request
    that is still with the thread pool leaves the output file empty. *)
Example late_truncation :
  let run := parseUrlFile (Imports0 := slowPool) "urls.txt" malformedWorld in
  fst run = Returned tt
  /\ stdout (snd run)
     = ["Invalid URL: not-a-url"; "Invalid URL: also-not-a-url"]
  /\ contentOf (files (snd run)) "urls.txt.NDJSON"
     = lines ["Invalid URL: not-a-url"; "Invalid URL: also-not-a-url"]
  /\ pool (snd run) = [(0, ("urls.txt.NDJSON", ""))]
  /\ drained (snd run) !! "urls.txt.NDJSON" = Some "".
Proof. vm_compute. repeat split. Qed.

Lemma record_spans_lines_witness :
  parseGithubUrl (getGithubLink helloWorldUrl) = Some helloWorldInfo
  /\ tryBlock helloWorldUrl (owner helloWorldInfo) (repo helloWorldInfo)
              batchWorld
     = (Returned helloWorldText, snd helloWorldRun)
  /\ calculateMetricsForRepo helloWorldUrl batchWorld
     = (Returned helloWorldText, snd helloWorldRun)
  /\ exists body, helloWorldText = "{" +:+ nl +:+ body.
Proof.
  assert (H1 : parseGithubUrl (getGithubLink helloWorldUrl)
               = Some helloWorldInfo)
    by (vm_compute; reflexivity).
  assert (H2 : tryBlock helloWorldUrl (owner helloWorldInfo)
                 (repo helloWorldInfo) batchWorld
               = (Returned helloWorldText, snd helloWorldRun))
    by (vm_compute; reflexivity).
  split; [exact H1|]. split; [exact H2|].
  exact (record_spans_lines helloWorldUrl helloWorldInfo
           batchWorld (snd helloWorldRun) helloWorldText H1 H2).
Defined.

(** The numbers of a record are written with five significant digits at
    most. *)
Example precision5_rounds :
  precision5 (1 # 3) = "0.33333"
  /\ precision5 (2 # 3) = "0.66667"
  /\ precision5 (5 # 8) = "0.625"
  /\ precision5 123456789 = "123460000"
  /\ precision5 (1 # 10000000) = "1e-7"
  /\ precision5 0 = "0".
Proof. vm_compute. repeat split. Qed.

(** The record of the scenario: fifteen lines, the first of which is the
    opening brace, and the net score a string between quotes. *)
Example helloWorld_record :
  length (split LF helloWorldText) = 15
  /\ split LF helloWorldText !! 0 = Some "{"
  /\ split LF helloWorldText !! 2
     = Some ("    " +:+ dq +:+ "NetScore" +:+ dq +:+ ": "
               +:+ dq +:+ "0.625" +:+ dq +:+ ", ")
  /\ split LF helloWorldText !! 8
     = Some ("    " +:+ dq +:+ "BusFactor" +:+ dq +:+ ": 1, ").
Proof. vm_compute. repeat split. Qed.

(** The batch of the scenarios: a line per URL on the standard output,
    the failure of the license request of no repository on the standard
    error, and the three results in the output file. *)
Example batch_run :
  let w := snd (parseUrlFile "urls.txt" batchWorld) in
  stdout w
  = ["Invalid URL: not-a-url";
     "Error calculating Metrics for octocat/broken: " +:+ status500;
     helloWorldText]
  /\ stderr w = []
  /\ drained w !! "urls.txt.NDJSON"
     = Some (lines (stdout w)).
Proof. by vm_compute. Qed.

End OrchestratorFacts.

(* ===================================================================== *)
(** ** Vocabulary and test doubles of the further properties *)
(* ===================================================================== *)

Module Further.
Import JsNumber BusFactor Resolver NetScore Runtime Orchestrator Scenario.

(** No character of [s] is [c]. *)
Fixpoint lacks (c : ascii) (s : string) : bool :=
  match s with
  | "" => true
  | String x s' => negb (Ascii.eqb x c) && lacks c s'
  end.

(** Every request of the queue is for the file [out]. *)
Definition onlyFor (out : string) (reqs : list PoolRequest) : Prop :=
  Forall (fun req => fst (snd req) = out) reqs.

Definition status404 : Error :=
  "AxiosError: Request failed with status code 404".

(** As [testDouble], but the license request of every repository
    fails. *)
Definition licenseDown : Imports Clock := {|
  getGithubLink url := url;
  fetchContributors _ _ t := (Returned helloWorldContributors, S t);
  calculateRampUp _ _ t := (Returned (1#2), S t);
  calculateCorrectness _ _ t := (Returned (3#4), S t);
  calculateResponsiveMaintener _ _ t := (Returned (1#4), S t);
  weights := mkWeights (1#4) (1#4) (1#4) (1#4);
  axiosGet _ _ t := (Thrown status404, S t);
  GITHUB_API_BASE_URL := "https://api.github.com";
  GITHUB_TOKEN := "secret";
  now t := (inject_Z (Z.of_nat t), t);
  threadPoolDelay _ := 0;
  precision5 := decimalText
|}.

(** The environment of the script: the repositories named [broken] do not
    answer, the others have the contributors of the scenario. *)
Definition scriptEnv (token : option string) : Script.Env Clock := {|
  Script.axiosGetData url _ t :=
    if String.eqb url "https://api.github.com/repos/octocat/broken/contributors"
    then (Thrown status500, S t)
    else (Returned helloWorldContributors, S t);
  Script.envToken := token;
  Script.urlFilePath := "/app/url_file.txt"
|}.

Definition scriptWorld : World Clock := worldWith "/app/url_file.txt" batchText.

(** A runtime that writes, for an error that nothing handles, the text of
    the error alone. *)
Definition textAlone (error : Error) : list string := [error].

(** [m] returns, whatever the world, and prints nothing on the standard
    error. *)
Definition succeeds (Ext : Type) {A} (m : Async Ext A) : Prop :=
  forall w, exists a w', m w = (Returned a, w') /\ stderr w' = stderr w.

(** A world with a second file. *)
Definition readmeWorld : World Clock :=
  mkWorld 0 {[ "urls.txt" := batchText; "README.md" := "notes" ]} [] [] [].

End Further.

(* ===================================================================== *)
(** * Further properties of the code *)
(* ===================================================================== *)

(** ** Bus factor *)

Module BusFactorMore.
Import JsNumber JsNumberFacts BusFactor BusFactorFacts Scenario.

Lemma sort_nil_iff l : sort l = [] <-> l = [].
Proof.
  split; [|by intros ->]. intros H.
  apply Permutation_nil. by rewrite <- H, sort_perm.
Qed.



(** X1: the returned count is at most the number of contributors, it is
    at least 1 when there is a contributor, and so it is 0 for the empty
    list only. *)
Theorem calculateBusFactor_bounds contributors threshold :
  let k := fst (calculateBusFactor contributors threshold) in
  k <= length contributors
  /\ (contributors <> [] -> 1 <= k)
  /\ (k = 0 <-> contributors = []).
Proof.
  unfold calculateBusFactor. simpl.
  destruct (forOf_first threshold (totalCommitsOf contributors)
              (sort contributors) 0%N 0)
    as (k & -> & Hlen & Hone & _).
  rewrite (Permutation_length (sort_perm contributors)) in Hlen.
  simpl. split; [done|].
  assert (Hpos : contributors <> [] -> 1 <= k).
  { intros Hne. apply Hone. by rewrite sort_nil_iff. }
  split; [done|]. split.
  - intros ->. destruct contributors as [|c l]; [done|].
    assert (1 <= 0) by (by apply Hpos). lia.
  - intros ->. simpl in Hlen. lia.
Qed.






End BusFactorMore.

(** ** Resolver *)

Module ResolverMore.
Import Resolver ResolverFacts.

Lemma parseGithubUrl_at_start o r s :
  o <> "" -> r <> "" ->
  matchHere githubPattern s = Some [o; r] ->
  parseGithubUrl s = Some {| owner := o; repo := r |}.
Proof.
  intros Ho Hr H. unfold parseGithubUrl.
  rewrite (jsMatch_here _ _ _ H).
  apply truthy_iff in Ho as ->. by apply truthy_iff in Hr as ->.
Qed.

Lemma matchHere_exact o r :
  o <> "" -> r <> "" -> noSlash o = true -> noSlash r = true ->
  matchHere githubPattern (githubUrl o r) = Some [o; r].
Proof.
  intros Ho Hr Hso Hsr. unfold githubUrl, githubPattern.
  rewrite matchHere_literal_app, matchHere_segments.
  change ("/" +:+ r) with (String "/" r).
  rewrite run_noSlash_app, rest_noSlash_app, run_noSlash by done.
  apply truthy_iff in Ho as ->. by apply truthy_iff in Hr as ->.
Qed.

Lemma matchHere_longer o r t :
  o <> "" -> r <> "" -> noSlash o = true -> noSlash r = true ->
  matchHere githubPattern (githubUrl o r +:+ "/" +:+ t) = Some [o; r].
Proof.
  intros Ho Hr Hso Hsr. unfold githubUrl, githubPattern.
  rewrite !StringFacts.app_assoc, matchHere_literal_app, matchHere_segments.
  change ("/" +:+ r +:+ "/" +:+ t) with (String "/" (r +:+ String "/" t)).
  rewrite run_noSlash_app, rest_noSlash_app, run_noSlash_app by done.
  apply truthy_iff in Ho as ->. by apply truthy_iff in Hr as ->.
Qed.

(** X5: whatever [parseGithubUrl] returns is an owner and a repository
    name that are not empty and hold no ['/'], and the URL contains
    [https://github.com/{owner}/{repo}]. *)
Theorem parseGithubUrl_result url info :
  parseGithubUrl url = Some info ->
  owner info <> "" /\ repo info <> ""
  /\ noSlash (owner info) = true /\ noSlash (repo info) = true
  /\ exists pre post,
       url = pre +:+ githubUrl (owner info) (repo info) +:+ post.
Proof.
  unfold parseGithubUrl.
  destruct (jsMatch githubPattern url) as [caps|] eqn:E; [|done].
  apply jsMatch_sound in E
    as (pre & o & r & post & -> & -> & Ho & Hr & Hso & Hsr).
  pose proof Ho as Ho'. pose proof Hr as Hr'.
  apply truthy_iff in Ho' as ->. apply truthy_iff in Hr' as ->.
  intros [= <-]. simpl. repeat (split; [done|]). by exists pre, post.
Qed.

Lemma parseGithubUrl_result_witness :
  parseGithubUrl "git+https://github.com/octocat/Hello-World.git"
  = Some {| owner := "octocat"; repo := "Hello-World.git" |}
  /\ noSlash "Hello-World.git" = true.
Proof.
  assert (H : parseGithubUrl "git+https://github.com/octocat/Hello-World.git"
              = Some {| owner := "octocat"; repo := "Hello-World.git" |})
    by (vm_compute; reflexivity).
  split; [exact H|].
  exact (proj1 (proj2 (proj2 (proj2 (parseGithubUrl_result _ _ H))))).
Defined.

(** X6: what follows the repository after a further ['/'] (a path in the
    repository) is ignored. *)
Theorem parseGithubUrl_path_ignored o r path :
  o <> "" -> r <> "" -> noSlash o = true -> noSlash r = true ->
  parseGithubUrl (githubUrl o r +:+ "/" +:+ path)
  = Some {| owner := o; repo := r |}.
Proof.
  intros Ho Hr Hso Hsr.
  apply (parseGithubUrl_at_start o r); [done..|].
  by apply matchHere_longer.
Qed.

Lemma parseGithubUrl_path_ignored_witness :
  "octocat" <> "" /\ "Hello-World" <> ""
  /\ noSlash "octocat" = true /\ noSlash "Hello-World" = true
  /\ parseGithubUrl (githubUrl "octocat" "Hello-World" +:+ "/" +:+ "tree/main")
     = Some {| owner := "octocat"; repo := "Hello-World" |}.
Proof.
  assert (H1 : "octocat" <> "") by discriminate.
  assert (H2 : "Hello-World" <> "") by discriminate.
  assert (H3 : noSlash "octocat" = true) by reflexivity.
  assert (H4 : noSlash "Hello-World" = true) by reflexivity.
  repeat (split; [assumption|]).
  exact (parseGithubUrl_path_ignored "octocat" "Hello-World" "tree/main"
           H1 H2 H3 H4).
Defined.

(** X7: the canonical URL of a result resolves to that result again. *)
Theorem parseGithubUrl_canonical url info :
  parseGithubUrl url = Some info ->
  parseGithubUrl (githubUrl (owner info) (repo info)) = Some info.
Proof.
  intros H. destruct (parseGithubUrl_result url info H)
    as (Ho & Hr & Hso & Hsr & _).
  destruct info as [o r]. simpl in *.
  apply (parseGithubUrl_at_start o r); [done..|].
  by apply matchHere_exact.
Qed.

Lemma parseGithubUrl_canonical_witness :
  parseGithubUrl "see https://github.com/octocat/Hello-World/issues/1"
  = Some {| owner := "octocat"; repo := "Hello-World" |}
  /\ parseGithubUrl (githubUrl "octocat" "Hello-World")
     = Some {| owner := "octocat"; repo := "Hello-World" |}.
Proof.
  assert (H : parseGithubUrl
                "see https://github.com/octocat/Hello-World/issues/1"
              = Some {| owner := "octocat"; repo := "Hello-World" |})
    by (vm_compute; reflexivity).
  split; [exact H|].
  exact (parseGithubUrl_canonical _ _ H).
Defined.

End ResolverMore.

(** ** Orchestrator *)

Module OrchestratorMore.
Import JsNumber BusFactor Resolver NetScore Runtime Orchestrator.
Import OrchestratorFacts Further.

Section Generic.
Context {Ext : Type} `{!Imports Ext}.

(** *** Reading the list of URLs *)

Lemma split_whole sep s : lacks sep s = true -> split sep s = [s].
Proof.
  induction s as [|x s IH]; [done|]. simpl.
  destruct (Ascii.eqb x sep); [done|]. simpl. intros H. by rewrite IH.
Qed.

Lemma split_piece sep u rest :
  lacks sep u = true ->
  split sep (u +:+ String sep rest) = u :: split sep rest.
Proof.
  induction u as [|x u IH].
  - intros _. rewrite StringFacts.app_nil_l. cbn [split].
    by rewrite Ascii.eqb_refl.
  - cbn [lacks]. rewrite StringFacts.app_cons. cbn [split].
    destruct (Ascii.eqb x sep); [done|]. simpl. intros H. by rewrite IH.
Qed.

(** X12: a text of lines that end in a newline, followed by a last line
    that may lack it, is read as its lines that are not empty, in order (the
    reading of [parseUrlFile] and of [main]). *)
Theorem split_filter_lines ls last :
  Forall (fun l => lacks LF l = true) ls -> lacks LF last = true ->
  List.filter truthy (split LF (lines ls +:+ last))
  = List.filter truthy (ls ++ [last]).
Proof.
  intros Hls Hlast. induction Hls as [|l ls Hl _ IH].
  - cbn [lines app]. rewrite StringFacts.app_nil_l. by rewrite split_whole.
  - cbn [lines app]. rewrite !StringFacts.app_assoc.
    change (nl +:+ lines ls +:+ last) with (String LF (lines ls +:+ last)).
    rewrite split_piece by done. cbn [List.filter]. by rewrite IH.
Qed.

(** *** One repository *)

(** X8: [calculateMetricsForRepo] never throws; it writes to no file and
    prints nothing on the standard output; and what it returns is the line
    for an invalid URL when the resolver fails, and otherwise the error line
    of the repository or a report. *)
Theorem calculateMetricsForRepo_outcome url (w : World Ext) :
  exists s w',
    calculateMetricsForRepo url w = (Returned s, w')
    /\ files w' = files w /\ pool w' = pool w /\ stdout w' = stdout w
    /\ match parseGithubUrl (getGithubLink url) with
       | None => s = "Invalid URL: " +:+ getGithubLink url
       | Some info =>
           (exists e,
              s = "Error calculating Metrics for " +:+ owner info +:+ "/"
                    +:+ repo info +:+ ": " +:+ e)
           \/ (exists netScore rampUp correctness busFactor responsive license,
                 s = report url netScore rampUp correctness busFactor
                            responsive license)
       end.
Proof.
  destruct (calculateMetricsForRepo_returns url w) as (s & w' & H).
  exists s, w'. split; [done|].
  pose proof (quiet_calculateMetricsForRepo url w) as Hq.
  rewrite H in Hq. simpl in Hq. destruct Hq as (Hf & Hp & Ho).
  repeat (split; [done|]).
  unfold calculateMetricsForRepo in H.
  destruct (parseGithubUrl _) as [info|]; [|by injection H as <- _].
  unfold tryCatch in H.
  destruct (tryBlock _ _ _ w) as [[text|e] w1] eqn:E.
  - right. injection H as <- _. by apply tryBlock_returned in E.
  - left. injection H as <- _. by exists e.
Qed.

(** *** What a report holds *)

Lemma functionTimer_ret_output {A} (v : A) (w w' : World Ext) timed :
  functionTimer (ret v) w = (Returned timed, w') -> output timed = v.
Proof.
  unfold functionTimer, bind, await, ret.
  destruct (now (ext w)) as [t x]. simpl. destruct (now x) as [t' x'].
  by intros [= <- _].
Qed.

(** X16: the report of a repository is made of the data of that run: its
    bus-factor field is the count that [calculateBusFactor] returns at
    threshold 50 on the contributors fetched, as it is (not scaled to
    [0,1]), and its net score is [calculateNetScore] of the four scores that
    the report shows. *)
Theorem report_consistent url o r (w w' : World Ext) text :
  tryBlock url o r w = (Returned text, w') ->
  exists contributors x netScore rampUp correctness busFactor responsive
         license,
    fetchContributors o r (ext w) = (Returned contributors, x)
    /\ text = report url netScore rampUp correctness busFactor responsive
                     license
    /\ output busFactor
       = inject_Z (Z.of_nat (fst (calculateBusFactor contributors (Fin 50))))
    /\ output netScore
       = calculateNetScore weights (output busFactor) (output rampUp)
           (output correctness) (output responsive).
Proof.
  unfold tryBlock, bind at 1, await at 1.
  destruct (fetchContributors o r (ext w)) as [[contributors|?] x]; [|done].
  unfold bind at 1.
  destruct (functionTimer _ _) as [[busFactor|?] w2] eqn:Eb; [|done].
  apply functionTimer_ret_output in Eb.
  unfold bind at 1.
  destruct (functionTimer _ w2) as [[rampUp|?] w3]; [|done].
  unfold bind at 1.
  destruct (functionTimer _ w3) as [[license|?] w4]; [|done].
  unfold bind at 1.
  destruct (functionTimer _ w4) as [[correctness|?] w5]; [|done].
  unfold bind at 1.
  destruct (functionTimer _ w5) as [[responsive|?] w6]; [|done].
  unfold bind at 1.
  destruct (functionTimer _ w6) as [[netScore|?] w7] eqn:En; [|done].
  apply functionTimer_ret_output in En.
  intros [= <- _].
  by exists contributors, x, netScore, rampUp, correctness, busFactor,
            responsive, license.
Qed.

(** *** A failure of the license request *)

Lemma succeeds_ret {A} (a : A) : succeeds Ext (ret a).
Proof. intros w. by exists a, w. Qed.

Lemma succeeds_await {A} (c : Remote Ext A) :
  (forall x, exists a x', c x = (Returned a, x')) -> succeeds Ext (await c).
Proof.
  intros H w. destruct (H (ext w)) as (a & x' & E).
  eexists a, _. unfold await. rewrite E. done.
Qed.

Lemma succeeds_bind {A B} (m : Async Ext A) (k : A -> Async Ext B) :
  succeeds Ext m -> (forall a, succeeds Ext (k a)) -> succeeds Ext (bind m k).
Proof.
  intros Hm Hk w. destruct (Hm w) as (a & w1 & E1 & S1).
  destruct (Hk a w1) as (b & w2 & E2 & S2).
  exists b, w2. rewrite (bind_returned _ _ _ _ _ E1). split; congruence.
Qed.

Lemma succeeds_clock :
  succeeds Ext (await (fun x => let '(t, x') := now x in (Returned t, x'))).
Proof.
  apply succeeds_await. intros x. destruct (now x) as [t x'].
  by exists t, x'.
Qed.

Lemma succeeds_functionTimer {A} (work : Async Ext A) :
  succeeds Ext work -> succeeds Ext (functionTimer work).
Proof.
  intros H. unfold functionTimer.
  apply succeeds_bind; [apply succeeds_clock|intros start].
  apply succeeds_bind; [done|intros out].
  apply succeeds_bind; [apply succeeds_clock|intros stop].
  apply succeeds_ret.
Qed.

Lemma bind_succeeds_then {A B} (m : Async Ext A) (k : A -> Async Ext B) w :
  succeeds Ext m ->
  exists a w1, bind m k w = k a w1 /\ stderr w1 = stderr w.
Proof.
  intros Hm. destruct (Hm w) as (a & w1 & E & S).
  exists a, w1. by rewrite (bind_returned _ _ _ _ _ E).
Qed.

Lemma fetchRepoLicense_fails o r e (w : World Ext) :
  (forall url auth x, exists x', axiosGet url auth x = (Thrown e, x')) ->
  exists w',
    fetchRepoLicense o r w = (Thrown e, w')
    /\ stderr w'
       = stderr w ++ ["ERROR! Failed to retrieve license information for "
                        +:+ o +:+ "/" +:+ r +:+ ": " +:+ e].
Proof.
  intros H. unfold fetchRepoLicense, tryCatch, bind at 1, await.
  destruct (H (GITHUB_API_BASE_URL +:+ "/repos/" +:+ o +:+ "/" +:+ r
                 +:+ "/license")
              ("token " +:+ GITHUB_TOKEN) (ext w)) as (x' & ->).
  by eexists.
Qed.

(** X9: when the contributors and the ramp-up of a repository are
    obtained and its license request fails with [e],
    [calculateMetricsForRepo] returns the error line of the repository with
    the text of [e], and the one line that [fetchRepoLicense] logs is on
    the standard error. *)
Theorem license_failure_reported url info e (w : World Ext) :
  parseGithubUrl (getGithubLink url) = Some info ->
  (forall x, exists cs x',
     fetchContributors (owner info) (repo info) x = (Returned cs, x')) ->
  (forall x, exists v x',
     calculateRampUp (owner info) (repo info) x = (Returned v, x')) ->
  (forall u auth x, exists x', axiosGet u auth x = (Thrown e, x')) ->
  exists w',
    calculateMetricsForRepo url w
    = (Returned ("Error calculating Metrics for " +:+ owner info +:+ "/"
                   +:+ repo info +:+ ": " +:+ e), w')
    /\ stderr w'
       = stderr w ++ ["ERROR! Failed to retrieve license information for "
                        +:+ owner info +:+ "/" +:+ repo info +:+ ": " +:+ e].
Proof.
  intros Hparse Hc Hr Hl.
  assert (Hthrow : exists w',
            tryBlock url (owner info) (repo info) w = (Thrown e, w')
            /\ stderr w'
               = stderr w
                   ++ ["ERROR! Failed to retrieve license information for "
                         +:+ owner info +:+ "/" +:+ repo info +:+ ": " +:+ e]).
  { unfold tryBlock.
    assert (H1 := succeeds_await _ Hc).
    assert (H2 := fun cs => succeeds_functionTimer _
                    (succeeds_ret (inject_Z (Z.of_nat
                       (fst (calculateBusFactor cs (Fin 50))))))).
    assert (H3 := succeeds_functionTimer _ (succeeds_await _ Hr)).
    match goal with
    | |- exists w', bind ?m ?k ?w0 = _ /\ _ =>
        destruct (bind_succeeds_then m k w0 H1) as (cs & w1 & -> & S1)
    end.
    match goal with
    | |- exists w', bind ?m ?k ?w0 = _ /\ _ =>
        destruct (bind_succeeds_then m k w0 (H2 cs)) as (bf & w2 & -> & S2)
    end.
    match goal with
    | |- exists w', bind ?m ?k ?w0 = _ /\ _ =>
        destruct (bind_succeeds_then m k w0 H3) as (ru & w3 & -> & S3)
    end.
    destruct (succeeds_clock w3) as (t & w4 & E4 & S4).
    destruct (fetchRepoLicense_fails (owner info) (repo info) e w4 Hl)
      as (w5 & E5 & S5).
    exists w5. split; [|congruence].
    apply bind_thrown. unfold functionTimer.
    rewrite (bind_returned _ _ _ _ _ E4). by apply bind_thrown. }
  destruct Hthrow as (w' & E & S). exists w'. split; [|done].
  unfold calculateMetricsForRepo. rewrite Hparse.
  by rewrite (tryCatch_thrown _ _ _ _ _ E).
Qed.

(** *** The files of a batch *)

(** X10: when the input file does not exist [parseUrlFile] throws
    before anything else happens: no module is called, no request goes to
    the thread pool (the output file is neither created nor emptied) and
    nothing is printed. *)
Theorem parseUrlFile_missing_input filepath (w : World Ext) :
  pool w = [] -> files w !! filepath = None ->
  exists e w',
    parseUrlFile filepath w = (Thrown e, w')
    /\ ext w' = ext w /\ files w' = files w /\ pool w' = []
    /\ stdout w' = stdout w /\ stderr w' = stderr w.
Proof.
  intros Hp Hf. unfold parseUrlFile, bind, readFileSync.
  rewrite Hp. simpl. rewrite Hf. by eexists _, _.
Qed.

Lemma poolStep_frame out reqs :
  forall fs,
    onlyFor out reqs ->
    onlyFor out (fst (poolStep reqs fs))
    /\ forall p, p <> out -> snd (poolStep reqs fs) !! p = fs !! p.
Proof.
  induction reqs as [|[n [path data]] reqs IH]; intros fs H.
  - by split.
  - apply Forall_cons in H as [Hpath H]. simpl in Hpath. subst path.
    destruct n as [|n]; cbn [poolStep].
    + destruct (IH (<[out := data]> fs) H) as (Hreqs & Hfs).
      split; [done|]. intros p Hne.
      by rewrite Hfs, lookup_insert_ne.
    + destruct (IH fs H) as (Hreqs & Hfs).
      destruct (poolStep reqs fs) as [reqs' fs']. simpl in *.
      split; [by constructor|done].
Qed.

Lemma written_frame out r (w : World Ext) :
  onlyFor out (pool w) ->
  onlyFor out (pool (written out r w))
  /\ forall p, p <> out -> files (written out r w) !! p = files w !! p.
Proof.
  intros H. destruct (poolStep_frame out (pool w) (files w) H) as (Hreqs & Hfs).
  unfold written, appendFileSync, consoleLog. simpl.
  destruct (poolStep (pool w) (files w)) as [reqs fs]. simpl in *.
  split; [done|]. intros p Hne. by rewrite lookup_insert_ne, Hfs.
Qed.

Lemma forOfUrls_frame out urls :
  forall w : World Ext,
    onlyFor out (pool w) ->
    onlyFor out (pool (snd (forOfUrls out urls w)))
    /\ forall p, p <> out ->
         files (snd (forOfUrls out urls w)) !! p = files w !! p.
Proof.
  induction urls as [|url rest IH]; intros w Hw; [by split|].
  destruct (calculateMetricsForRepo_returns url w) as (r & w1 & H).
  rewrite (forOfUrls_cons _ _ _ _ _ _ H).
  destruct (quiet_calculateMetricsForRepo url w) as (Hf & Hp & _).
  rewrite H in Hf, Hp. simpl in Hf, Hp.
  destruct (written_frame out r w1) as (Hp' & Hf'); [by rewrite Hp|].
  destruct (IH _ Hp') as (Hp'' & Hf''). split; [done|].
  intros p Hne. by rewrite Hf'', Hf', Hf.
Qed.

Lemma drained_frame out (w : World Ext) :
  onlyFor out (pool w) ->
  forall p, p <> out -> drained w !! p = files w !! p.
Proof.
  unfold drained. generalize (files w).
  induction (pool w) as [|[n [path data]] reqs IH]; intros fs H p Hne; [done|].
  apply Forall_cons in H as [Hpath H]. simpl in Hpath. subst path.
  cbn [fold_left]. by rewrite IH, lookup_insert_ne.
Qed.

Lemma app_neq_self s c t : s <> s +:+ String c t.
Proof.
  induction s as [|x s IH]; [done|].
  rewrite StringFacts.app_cons. intros [= H]. by apply IH.
Qed.

(** X11: a batch changes no file but its output file: once the thread
    pool has no request left every other file, the input file among them,
    has the content it had. *)
Theorem parseUrlFile_other_files filepath text (w : World Ext) :
  pool w = [] -> files w !! filepath = Some text ->
  let w' := snd (parseUrlFile filepath w) in
  (forall p, p <> filepath +:+ ".NDJSON" -> drained w' !! p = files w !! p)
  /\ drained w' !! filepath = Some text.
Proof.
  intros Hp Hf w'.
  assert (Hall : forall p, p <> filepath +:+ ".NDJSON" ->
                   drained w' !! p = files w !! p).
  { intros p Hne. unfold w'. rewrite (parseUrlFile_start _ _ _ Hp Hf).
    assert (H0 : onlyFor (filepath +:+ ".NDJSON") (pool (loopStart filepath w)))
      by (by repeat constructor).
    destruct (forOfUrls_frame (filepath +:+ ".NDJSON")
                (List.filter truthy (split LF text)) _ H0) as (Hreqs & Hfs).
    by rewrite (drained_frame _ _ Hreqs), Hfs. }
  split; [done|]. rewrite Hall; [done|]. apply app_neq_self.
Qed.

End Generic.

(** *** On the test doubles *)

Import Scenario.

Lemma split_filter_lines_witness :
  Forall (fun l => lacks LF l = true) ["not-a-url"; ""; brokenUrl]
  /\ lacks LF helloWorldUrl = true
  /\ List.filter truthy
       (split LF (lines ["not-a-url"; ""; brokenUrl] +:+ helloWorldUrl))
     = List.filter truthy (["not-a-url"; ""; brokenUrl] ++ [helloWorldUrl]).
Proof.
  assert (H1 : Forall (fun l => lacks LF l = true)
                 ["not-a-url"; ""; brokenUrl])
    by (repeat constructor).
  assert (H2 : lacks LF helloWorldUrl = true) by reflexivity.
  split; [exact H1|]. split; [exact H2|].
  exact (split_filter_lines _ _ H1 H2).
Defined.

Lemma license_failure_reported_witness :
  exists w',
    calculateMetricsForRepo (Imports0 := licenseDown) helloWorldUrl batchWorld
    = (Returned ("Error calculating Metrics for " +:+ owner helloWorldInfo
                   +:+ "/" +:+ repo helloWorldInfo +:+ ": " +:+ status404), w')
    /\ stderr w'
       = stderr batchWorld
           ++ ["ERROR! Failed to retrieve license information for "
                 +:+ owner helloWorldInfo +:+ "/" +:+ repo helloWorldInfo
                 +:+ ": " +:+ status404].
Proof.
  assert (H1 : parseGithubUrl (getGithubLink (Imports := licenseDown)
                                 helloWorldUrl)
               = Some helloWorldInfo)
    by (vm_compute; reflexivity).
  apply (license_failure_reported (Imports0 := licenseDown)
           helloWorldUrl helloWorldInfo status404 batchWorld H1).
  - intros x. by eexists _, _.
  - intros x. by eexists _, _.
  - intros u auth x. by eexists.
Defined.

Lemma parseUrlFile_missing_input_witness :
  pool batchWorld = [] /\ files batchWorld !! "none.txt" = None
  /\ exists e w',
       parseUrlFile "none.txt" batchWorld = (Thrown e, w')
       /\ ext w' = ext batchWorld /\ files w' = files batchWorld
       /\ pool w' = []
       /\ stdout w' = stdout batchWorld /\ stderr w' = stderr batchWorld.
Proof.
  assert (H1 : pool batchWorld = []) by reflexivity.
  assert (H2 : files batchWorld !! "none.txt" = None)
    by (vm_compute; reflexivity).
  split; [exact H1|]. split; [exact H2|].
  exact (parseUrlFile_missing_input "none.txt" batchWorld H1 H2).
Defined.

Lemma parseUrlFile_other_files_witness :
  pool readmeWorld = [] /\ files readmeWorld !! "urls.txt" = Some batchText
  /\ drained (snd (parseUrlFile "urls.txt" readmeWorld)) !! "urls.txt"
     = Some batchText.
Proof.
  assert (H1 : pool readmeWorld = []) by reflexivity.
  assert (H2 : files readmeWorld !! "urls.txt" = Some batchText)
    by (vm_compute; reflexivity).
  split; [exact H1|]. split; [exact H2|].
  exact (proj2 (parseUrlFile_other_files "urls.txt" batchText readmeWorld
                  H1 H2)).
Defined.

Lemma report_consistent_witness :
  tryBlock helloWorldUrl (owner helloWorldInfo) (repo helloWorldInfo)
           batchWorld
  = (Returned helloWorldText, snd helloWorldRun)
  /\ exists contributors x netScore rampUp correctness busFactor responsive
            license,
       fetchContributors (owner helloWorldInfo) (repo helloWorldInfo)
                         (ext batchWorld)
       = (Returned contributors, x)
       /\ helloWorldText
          = report helloWorldUrl netScore rampUp correctness busFactor
                   responsive license
       /\ output busFactor
          = inject_Z (Z.of_nat
              (fst (calculateBusFactor contributors (Fin 50))))
       /\ output netScore
          = calculateNetScore weights (output busFactor) (output rampUp)
              (output correctness) (output responsive).
Proof.
  assert (H : tryBlock helloWorldUrl (owner helloWorldInfo)
                (repo helloWorldInfo) batchWorld
              = (Returned helloWorldText, snd helloWorldRun))
    by (vm_compute; reflexivity).
  split; [exact H|].
  exact (report_consistent helloWorldUrl (owner helloWorldInfo)
           (repo helloWorldInfo) batchWorld (snd helloWorldRun)
           helloWorldText H).
Defined.

End OrchestratorMore.

(** ** The bus-factor script *)

Module ScriptFacts.
Import JsNumber BusFactor Resolver Runtime Script.
Import OrchestratorFacts Further.

Section Generic.
Context {Ext : Type} `{!Env Ext}.

Lemma quiet_fetchContributors o r :
  Orchestrator.quiet Ext (fetchContributors o r).
Proof.
  unfold fetchContributors. apply quiet_tryCatch.
  - apply quiet_bind; [apply quiet_await|intros ?; apply quiet_ret].
  - intros e.
    apply quiet_bind; [apply quiet_consoleError|intros ?; apply quiet_throw].
Qed.

Lemma quiet_calculateBusFactorForRepo githubUrl :
  Orchestrator.quiet Ext (calculateBusFactorForRepo githubUrl).
Proof.
  unfold calculateBusFactorForRepo.
  destruct (parseGithubUrl _); [|apply quiet_ret].
  apply quiet_tryCatch; [|intros ?; apply quiet_ret].
  apply quiet_bind; [apply quiet_fetchContributors|intros ?; apply quiet_ret].
Qed.

(** X13: [calculateBusFactorForRepo] never throws, writes to no file and
    prints nothing on the standard output.  It returns the line for an
    invalid URL when the resolver fails; the line with the bus factor at
    threshold 50 of the contributors that the request returns; and, when
    the request fails, the error line of the repository, after
    [fetchContributors] has logged the failure on the standard error. *)
Theorem calculateBusFactorForRepo_outcome githubUrl (w : World Ext) :
  exists s w',
    calculateBusFactorForRepo githubUrl w = (Returned s, w')
    /\ files w' = files w /\ pool w' = pool w /\ stdout w' = stdout w
    /\ match parseGithubUrl githubUrl with
       | None =>
           s = "Invalid GitHub URL: " +:+ githubUrl /\ stderr w' = stderr w
       | Some info =>
           match axiosGetData (contributorsUrl info)
                              ("token " +:+ tokenText envToken) (ext w) with
           | (Returned contributors, _) =>
               s = "The Bus Factor for " +:+ owner info +:+ "/"
                     +:+ repo info +:+ " is: "
                     +:+ pretty (fst (calculateBusFactor contributors (Fin 50)))
               /\ stderr w' = stderr w
           | (Thrown e, _) =>
               s = "Error calculating Bus Factor for " +:+ owner info
                     +:+ "/" +:+ repo info +:+ ": " +:+ e
               /\ stderr w'
                  = stderr w ++ ["Error fetching contributors: " +:+ e]
           end
       end.
Proof.
  pose proof (quiet_calculateBusFactorForRepo githubUrl w) as Hq.
  unfold calculateBusFactorForRepo in *.
  destruct (parseGithubUrl githubUrl) as [info|].
  - unfold tryCatch, bind, fetchContributors, tryCatch, bind, await,
      contributorsUrl in *.
    destruct (axiosGetData _ _ (ext w)) as [[cs|e] x]; simpl in *;
      eexists _, _; (split; [reflexivity|]); tauto.
  - eexists _, _. split; [reflexivity|]. simpl in *. tauto.
Qed.

Lemma calculateBusFactorForRepo_returns githubUrl (w : World Ext) :
  exists r w', calculateBusFactorForRepo githubUrl w = (Returned r, w').
Proof.
  destruct (calculateBusFactorForRepo_outcome githubUrl w)
    as (s & w' & H & _). by exists s, w'.
Qed.

(** *** The loop of [main] *)

Lemma loop_cons url rest (w : World Ext) r w1 :
  calculateBusFactorForRepo url w = (Returned r, w1) ->
  forOfUrls (url :: rest) w = forOfUrls rest (snd (consoleLog r w1)).
Proof. intros H. cbn [forOfUrls]. by rewrite (bind_returned _ _ _ _ _ H). Qed.

Lemma printed_cons url rest (w : World Ext) r w1 :
  calculateBusFactorForRepo url w = (Returned r, w1) ->
  printed (url :: rest) w = r :: printed rest (snd (consoleLog r w1)).
Proof. intros H. cbn [printed]. by rewrite H. Qed.

Lemma loop_app done todo :
  forall w : World Ext,
    forOfUrls (done ++ todo) w = forOfUrls todo (snd (forOfUrls done w)).
Proof.
  induction done as [|url done IH]; intros w; [done|].
  destruct (calculateBusFactorForRepo_returns url w) as (r & w1 & H).
  cbn [app]. rewrite !(loop_cons _ _ _ _ _ H). apply IH.
Qed.

Lemma printed_app done todo :
  forall w : World Ext,
    printed (done ++ todo) w
    = printed done w ++ printed todo (snd (forOfUrls done w)).
Proof.
  induction done as [|url done IH]; intros w; [done|].
  destruct (calculateBusFactorForRepo_returns url w) as (r & w1 & H).
  cbn [app]. rewrite !(printed_cons _ _ _ _ _ H).
  rewrite (loop_cons _ _ _ _ _ H), IH. done.
Qed.

Lemma loop_run urls :
  forall w : World Ext,
    exists w',
      forOfUrls urls w = (Returned tt, w')
      /\ stdout w' = stdout w ++ printed urls w
      /\ length (printed urls w) = length urls
      /\ files w' = files w /\ pool w' = pool w.
Proof.
  induction urls as [|url rest IH]; intros w.
  - exists w. simpl. by rewrite app_nil_r.
  - destruct (calculateBusFactorForRepo_returns url w) as (r & w1 & H).
    rewrite (loop_cons _ _ _ _ _ H), (printed_cons _ _ _ _ _ H).
    destruct (quiet_calculateBusFactorForRepo url w) as (Hf & Hp & Ho).
    rewrite H in Hf, Hp, Ho. simpl in Hf, Hp, Ho.
    destruct (IH (snd (consoleLog r w1))) as (w' & E & So & Sl & Sf & Sp).
    exists w'. split; [done|]. split.
    { rewrite So. simpl. by rewrite Ho, <- app_assoc. }
    split; [cbn [length]; by rewrite Sl|].
    split; [by rewrite Sf|by rewrite Sp].
Qed.

Lemma main_start text (w : World Ext) :
  pool w = [] -> files w !! urlFilePath = Some text ->
  main w
  = forOfUrls (List.filter truthy (Orchestrator.split Orchestrator.LF text))
              (afterRead w).
Proof.
  intros Hp Hf. unfold main, bind, readFileSync.
  rewrite Hp. simpl. by rewrite Hf.
Qed.

(** X14: [main] returns after it has printed one line for each line of
    the URL file that is not empty, in the order of the file, each before
    the next URL is processed; it writes to no file. *)
Theorem main_prints text (w : World Ext) :
  pool w = [] -> files w !! urlFilePath = Some text ->
  let urls := List.filter truthy (Orchestrator.split Orchestrator.LF text) in
  let ps := printed urls (afterRead w) in
  (exists w',
     main w = (Returned tt, w')
     /\ stdout w' = stdout w ++ ps
     /\ files w' = files w /\ pool w' = [])
  /\ length ps = length urls
  /\ (forall done url todo,
        urls = done ++ url :: todo ->
        let wi := snd (forOfUrls done (afterRead w)) in
        exists r w1,
          calculateBusFactorForRepo url wi = (Returned r, w1)
          /\ ps = printed done (afterRead w)
                    ++ r :: printed todo (snd (consoleLog r w1))
          /\ stdout wi = stdout w ++ printed done (afterRead w)).
Proof.
  intros Hp Hf urls ps.
  destruct (loop_run urls (afterRead w)) as (w' & E & So & Sl & Sf & Sp).
  split; [|split; [done|]].
  - exists w'. by rewrite (main_start _ _ Hp Hf).
  - intros done url todo Hsplit wi.
    destruct (calculateBusFactorForRepo_returns url wi) as (r & w1 & H).
    exists r, w1. split; [done|]. split.
    + unfold ps. rewrite Hsplit, printed_app. f_equal.
      by apply printed_cons.
    + destruct (loop_run done (afterRead w)) as (wd & Ed & Sd & _).
      unfold wi. by rewrite Ed.
Qed.


End Generic.

(** *** On the test double *)

Import Scenario.

Lemma main_prints_witness :
  pool scriptWorld = []
  /\ files scriptWorld !! urlFilePath (Env := scriptEnv (Some "secret"))
     = Some batchText
  /\ length (printed (Env0 := scriptEnv (Some "secret"))
               (List.filter truthy (Orchestrator.split Orchestrator.LF batchText))
               (afterRead scriptWorld))
     = length (List.filter truthy
                 (Orchestrator.split Orchestrator.LF batchText)).
Proof.
  assert (H1 : pool scriptWorld = []) by reflexivity.
  assert (H2 : files scriptWorld
                 !! urlFilePath (Env := scriptEnv (Some "secret"))
               = Some batchText)
    by (vm_compute; reflexivity).
  split; [exact H1|]. split; [exact H2|].
  exact (proj1 (proj2 (main_prints (Env0 := scriptEnv (Some "secret"))
                         batchText scriptWorld H1 H2))).
Defined.


(** The run of the script without its URL file: the error of
    [readFileSync] on the standard error, nothing on the standard
    output, and the exit code 1. *)
Example script_without_file :
  let '(ending, w) :=
    script (Env0 := scriptEnv (Some "secret")) textAlone readmeWorld in
  exitCode ending = 1
  /\ stdout w = []
  /\ stderr w
     = ["Error: ENOENT: no such file or directory, open '/app/url_file.txt'"].
Proof. vm_compute. repeat split. Qed.

(** The run of the script without a token. *)
Example script_without_token :
  let '(ending, w) := script (Env0 := scriptEnv None) textAlone scriptWorld in
  ending = Exited 1
  /\ stdout w = []
  /\ stderr w = ["Error: GITHUB_TOKEN is not set in the environment."].
Proof. vm_compute. repeat split. Qed.

(** The run of the script on the URL file of the scenarios. *)
Example script_run :
  let '(ending, w) :=
    script (Env0 := scriptEnv (Some "secret")) textAlone scriptWorld in
  ending = Completed
  /\ stdout w
     = ["Invalid GitHub URL: not-a-url";
        "Error calculating Bus Factor for octocat/broken: " +:+ status500;
        "The Bus Factor for octocat/Hello-World is: 1"]
  /\ stderr w = ["Error fetching contributors: " +:+ status500].
Proof. vm_compute. repeat split. Qed.

End ScriptFacts.
